(** * pam_hbac: the configuration file parser of [src/pam_hbac_config.c]

    A shallow embedding of the tokenizer ([strip], [get_key_value]), the
    line interpreter ([read_config_line]), the defaulting pass
    ([default_config]), the cleanup routine ([ph_cleanup_config]) and the
    loader ([ph_read_config]), over an explicit heap with an allocation
    oracle, followed by the properties of the parser.

    Conventions.  A [char] is an [ascii]; a character buffer is a
    [list ascii]; reading a buffer past its end yields the terminator, so a
    list without a NUL stands for the C string it spells.  Heap pointers are
    [option loc], [None] being [NULL].  The calls to [logger] write to syslog
    only and are left out. *)

From Stdlib Require Import ZArith Ascii String.
From stdpp Require Import base decidable option list strings gmap fin_maps.

Local Open Scope Z_scope.

(** ** Characters and the libc predicates the parser relies on *)

Definition NUL : ascii := Ascii.zero.
Definition SEPARATOR : ascii := "="%char.
Definition MAX_LINE : nat := 1024.

(** Value of [errno.h] on Linux. *)
Definition EAGAIN : Z := 11.
Definition ENOMEM : Z := 12.
Definition EINVAL : Z := 22.

Definition char_code (c : ascii) : Z := Z.of_nat (nat_of_ascii c).

(** [isspace] in the "C" locale: space, and the controls \t \n \v \f \r. *)
Definition isspace (c : ascii) : bool :=
  let n := char_code c in
  ((9 <=? n) && (n <=? 13)) || (n =? 32).

(** [tolower] in the "C" locale, on the character code. *)
Definition tolower (c : ascii) : Z :=
  let n := char_code c in
  if (65 <=? n) && (n <=? 90) then n + 32 else n.

Definition is_nul (c : ascii) : bool := Ascii.eqb c NUL.

(** [buf[i]]; bytes past the end of the list read as the terminator. *)
Definition char_at (buf : list ascii) (i : nat) : ascii := nth i buf NUL.

(** The C string that starts at the head of a buffer. *)
Fixpoint c_str (buf : list ascii) : list ascii :=
  match buf with
  | [] => []
  | c :: buf' => if is_nul c then [] else c :: c_str buf'
  end.

Definition strlen (buf : list ascii) : nat := length (c_str buf).

(** [strchr(s, c)] for a character [c] other than NUL: offset of the first
    occurrence of [c] before the terminator. *)
Fixpoint strchr (s : list ascii) (c : ascii) : option nat :=
  match s with
  | [] => None
  | x :: s' =>
      if Ascii.eqb x c then Some 0%nat
      else if is_nul x then None
      else S <$> strchr s' c
  end.

(** [strcasecmp(a, b)]: difference of the first pair of characters that
    differ after [tolower]; the comparison ends at the terminator. *)
Fixpoint strcasecmp (a b : list ascii) : Z :=
  match a, b with
  | [], [] => 0
  | [], y :: _ => 0 - tolower y
  | x :: _, [] => tolower x
  | x :: a', y :: b' =>
      if tolower x =? tolower y
      then if is_nul x then 0 else strcasecmp a' b'
      else tolower x - tolower y
  end.

(** ** [strip] *)

(** [while ( *start && isspace( *start)) ++start;] counted from the head of
    the string. *)
Fixpoint skip_leading (s : list ascii) : nat :=
  match s with
  | [] => 0%nat
  | c :: s' => if negb (is_nul c) && isspace c then S (skip_leading s') else 0%nat
  end.

(** [while (end > start && isspace( *end)) *end-- = '\0';]  The loop runs at
    most [end - start] times, which is the bound [n]. *)
Fixpoint trim_trailing (n : nat) (buf : list ascii) (start end_ : Z) : list ascii :=
  match n with
  | O => buf
  | S n' =>
      if (end_ >? start) && isspace (char_at buf (Z.to_nat end_))
      then trim_trailing n' (<[Z.to_nat end_ := NUL]> buf) start (end_ - 1)
      else buf
  end.

(** [strip(s)] returns the offset [start - s] of the returned pointer and
    the buffer as the loop left it. *)
Definition strip (s : list ascii) : nat * list ascii :=
  let start := skip_leading s in
  let end_ := Z.of_nat (strlen s) - 1 in
  (start, trim_trailing (Z.to_nat (end_ - Z.of_nat start)) s (Z.of_nat start) end_).

(** The string [strip] hands back: the C string at the returned pointer. *)
Definition stripped (s : list ascii) : list ascii :=
  let '(start, buf) := strip s in c_str (drop start buf).

(** A string of whitespace, and a string with no whitespace at either end
    (and no terminator inside). *)
Definition blank (w : list ascii) : Prop := Forall (fun c => isspace c = true) w.

Definition trimmed (x : list ascii) : Prop :=
  Forall (fun c => is_nul c = false) x /\
  (forall c, head x = Some c -> isspace c = false) /\
  (forall c, last x = Some c -> isspace c = false).

(** ** Memory, the environment and the monad of the parser *)

Definition loc := nat.
Definition ptr := option loc.

(** [struct pam_hbac_config]. *)
Record pam_hbac_config := mk_config {
  uri : ptr;
  search_base : ptr;
  bind_dn : ptr;
  bind_pw : ptr;
  hostname : ptr;
  timeout : Z
}.

Inductive block :=
  | Chars (bs : list ascii)
  | Config (c : pam_hbac_config).

(** What the parser cannot control: which allocation requests succeed, what
    fresh memory holds, what the file system and the kernel answer. *)
Record world := mk_world {
  malloc_ok : nat -> bool;
  malloc_junk : nat -> ascii;
  sys_fopen : list ascii -> positive + list ascii;
  sys_gethostname : nat -> positive + list ascii
}.

(** [heap]: the live allocations; [nallocs]: allocation requests made so
    far; [conf_out]: the caller's variable that [_conf] points to. *)
Record state := mk_state {
  heap : gmap loc block;
  nallocs : nat;
  conf_out : ptr
}.

Inductive result (A : Type) :=
  | Ret (a : A) (s : state)
  | Fault.
Arguments Ret {A} a s.
Arguments Fault {A}.

Definition M (A : Type) : Type := world -> state -> result A.

Definition ret {A} (a : A) : M A := fun _ s => Ret a s.
Definition bind {A B} (m : M A) (k : A -> M B) : M B :=
  fun w s => match m w s with
             | Ret a s' => k a w s'
             | Fault => Fault
             end.
Definition fault {A} : M A := fun _ _ => Fault.

Notation "'let*' x ':=' m 'in' k" := (bind m (fun x => k))
  (at level 10, x name, m at level 100, k at level 200).
Notation "'let*' ' p ':=' m 'in' k" := (bind m (fun p => k))
  (at level 10, p pattern, m at level 100, k at level 200).
Notation "m ';;;' k" := (bind m (fun _ => k))
  (at level 100, k at level 200, right associativity).

Definition set_heap (h : gmap loc block) (s : state) : state :=
  mk_state h (nallocs s) (conf_out s).

(** An allocation request for a block with initial content [b]. *)
Definition alloc (b : block) : M ptr := fun w s =>
  if malloc_ok w (nallocs s)
  then let l := fresh (dom (heap s)) in
       Ret (Some l) (mk_state (<[l := b]> (heap s)) (S (nallocs s)) (conf_out s))
  else Ret None (mk_state (heap s) (S (nallocs s)) (conf_out s)).

Definition malloc (n : nat) : M ptr := fun w =>
  alloc (Chars (map (malloc_junk w) (seq 0 n))) w.

Definition strdup (s : list ascii) : M ptr :=
  alloc (Chars (c_str s ++ [NUL])).

(** [free(p)]: nothing for [NULL]; releasing what is not live is a fault. *)
Definition free (p : ptr) : M unit := fun _ s =>
  match p with
  | None => Ret tt s
  | Some l => match heap s !! l with
              | Some _ => Ret tt (set_heap (delete l (heap s)) s)
              | None => Fault
              end
  end.

Definition load_chars (p : ptr) : M (list ascii) := fun _ s =>
  match p with
  | Some l => match heap s !! l with
              | Some (Chars bs) => Ret bs s
              | _ => Fault
              end
  | None => Fault
  end.

Definition store_chars (l : loc) (bs : list ascii) : M unit := fun _ s =>
  match heap s !! l with
  | Some (Chars _) => Ret tt (set_heap (<[l := Chars bs]> (heap s)) s)
  | _ => Fault
  end.

(** [p[i] = c] *)
Definition poke (p : ptr) (i : Z) (c : ascii) : M unit :=
  let* bs := load_chars p in
  match p with
  | Some l =>
      if (0 <=? i) && (i <? Z.of_nat (length bs))
      then store_chars l (<[Z.to_nat i := c]> bs)
      else fault
  | None => fault
  end.

Definition load_config (l : loc) : M pam_hbac_config := fun _ s =>
  match heap s !! l with
  | Some (Config c) => Ret c s
  | _ => Fault
  end.

Definition modify_config (l : loc) (f : pam_hbac_config -> pam_hbac_config) : M unit :=
  fun _ s =>
  match heap s !! l with
  | Some (Config c) => Ret tt (set_heap (<[l := Config (f c)]> (heap s)) s)
  | _ => Fault
  end.

Definition set_uri (p : ptr) (c : pam_hbac_config) :=
  mk_config p (search_base c) (bind_dn c) (bind_pw c) (hostname c) (timeout c).
Definition set_search_base (p : ptr) (c : pam_hbac_config) :=
  mk_config (uri c) p (bind_dn c) (bind_pw c) (hostname c) (timeout c).
Definition set_bind_dn (p : ptr) (c : pam_hbac_config) :=
  mk_config (uri c) (search_base c) p (bind_pw c) (hostname c) (timeout c).
Definition set_bind_pw (p : ptr) (c : pam_hbac_config) :=
  mk_config (uri c) (search_base c) (bind_dn c) p (hostname c) (timeout c).
Definition set_hostname (p : ptr) (c : pam_hbac_config) :=
  mk_config (uri c) (search_base c) (bind_dn c) (bind_pw c) p (timeout c).
Definition set_timeout (t : Z) (c : pam_hbac_config) :=
  mk_config (uri c) (search_base c) (bind_dn c) (bind_pw c) (hostname c) t.

(** The string fields a configuration key can select. *)
Inductive field := f_uri | f_bind_dn | f_bind_pw | f_search_base | f_hostname.

#[global] Instance field_eq_dec : EqDecision field.
Proof. solve_decision. Defined.

Definition get_field (f : field) (c : pam_hbac_config) : ptr :=
  match f with
  | f_uri => uri c
  | f_bind_dn => bind_dn c
  | f_bind_pw => bind_pw c
  | f_search_base => search_base c
  | f_hostname => hostname c
  end.

Definition set_field (f : field) (p : ptr) (c : pam_hbac_config) : pam_hbac_config :=
  match f with
  | f_uri => set_uri p c
  | f_bind_dn => set_bind_dn p c
  | f_bind_pw => set_bind_pw p c
  | f_search_base => set_search_base p c
  | f_hostname => set_hostname p c
  end.

(** [calloc(1, sizeof(struct pam_hbac_config))] *)
Definition zero_config : pam_hbac_config := mk_config None None None None None 0.
Definition calloc_config : M ptr := alloc (Config zero_config).

(** [gethostname(p, len)]: on success the kernel has written at most [len]
    bytes at the head of the buffer. *)
Definition gethostname (p : ptr) (len : nat) : M Z := fun w =>
  match sys_gethostname w len with
  | inl _ => ret (-1) w
  | inr name =>
      (let* bs := load_chars p in
       match p with
       | Some l =>
           if (length bs <? len)%nat then fault
           else store_chars l (take len name ++ drop (length (take len name)) bs);;;
                ret 0
       | None => fault
       end) w
  end.

(** ** The constants of [pam_hbac.h], [config.h] and [limits.h] *)

(** The headers are not part of the sources at hand: the key names, the
    defaults and the size of the host name buffer are parameters. *)
Class Macros := {
  PAM_HBAC_CONFIG_URI : list ascii;
  PAM_HBAC_CONFIG_BIND_DN : list ascii;
  PAM_HBAC_CONFIG_BIND_PW : list ascii;
  PAM_HBAC_CONFIG_SEARCH_BASE : list ascii;
  PAM_HBAC_CONFIG_HOST_NAME : list ascii;
  PAM_HBAC_DEFAULT_URI : list ascii;
  PAM_HBAC_DEFAULT_SEARCH_BASE : list ascii;
  PAM_HBAC_DEFAULT_TIMEOUT : Z;
  HOST_NAME_MAX : nat
}.

(** The C string a pointer leads to. *)
Definition string_at (h : gmap loc block) (p : ptr) : option (list ascii) :=
  match p with
  | Some l => match h !! l with
              | Some (Chars bs) => Some (c_str bs)
              | _ => None
              end
  | None => None
  end.

(** [field_holds h p o]: the field with pointer [p] is unset when [o] is
    [None], and leads to the text [t] when [o] is [Some t]. *)
Definition field_holds (h : gmap loc block) (p : ptr) (o : option (list ascii)) : Prop :=
  match o with
  | None => p = None
  | Some t => string_at h p = Some t
  end.

(** The record at [conf] is live, its timeout is [t], its string fields
    hold the texts [σ] and no two of them share a block. *)
Definition record_inv (h : gmap loc block) (conf : loc) (t : Z)
    (σ : field -> option (list ascii)) : Prop :=
  exists c, h !! conf = Some (Config c) /\ timeout c = t /\
    (forall f, field_holds h (get_field f c) (σ f)) /\
    (forall f g, f <> g -> get_field f c = get_field g c -> get_field f c = None).

(** Every block of [h] other than the record is still there in [h']. *)
Definition frame (conf : loc) (h h' : gmap loc block) : Prop :=
  forall l b, l <> conf -> h !! l = Some b -> h' !! l = Some b.

(** A string field after the defaulting pass: what it was when it was set,
    a fresh copy of the default [D] otherwise. *)
Definition defaulted (h h' : gmap loc block) (p p' : ptr) (D : list ascii) : Prop :=
  match p with
  | Some _ => p' = p
  | None => exists l, p' = Some l /\ h !! l = None /\
                      h' !! l = Some (Chars (c_str D ++ [NUL]))
  end.

(** The host name field after the defaulting pass: what it was when it was
    set, a fresh buffer of [n] bytes whose last byte is the terminator
    otherwise. *)
Definition hostname_filled (h h' : gmap loc block) (p p' : ptr) (n : nat) : Prop :=
  match p with
  | Some _ => p' = p
  | None => exists l buf, p' = Some l /\ h !! l = None /\
                          h' !! l = Some (Chars buf) /\
                          length buf = n /\ buf !! (n - 1)%nat = Some NUL
  end.

(** The state right after the record is allocated. *)
Definition after_calloc (s : state) : state :=
  mk_state (<[fresh (dom (heap s)) := Config zero_config]> (heap s))
           (S (nallocs s)) (conf_out s).

(** The blocks of [h0], the heap a load started from, are all in [h] as
    they were, and the record at [conf], with invariant, is not one of them
    nor points to one of them. *)
Definition owned (h0 h : gmap loc block) (conf : loc) : Prop :=
  h0 ⊆ h /\ h0 !! conf = None /\
  exists t σ c,
    record_inv h conf t σ /\ h !! conf = Some (Config c) /\
    forall f l, get_field f c = Some l -> h0 !! l = None.

Section Parser.
Context `{Macros}.

(** ** [ph_cleanup_config] *)

Definition ph_cleanup_config (conf : ptr) : M unit :=
  match conf with
  | None => ret tt
  | Some cl =>
      let* c := load_config cl in
      free (uri c);;;
      free (search_base c);;;
      free (hostname c);;;
      free (Some cl)
  end.

(** ** [default_config] *)

Definition default_config (conf : loc) : M ptr :=
  let fail := (ph_cleanup_config (Some conf);;; ret None) in
  let* c := load_config conf in
  (if uri c is None
   then let* p := strdup PAM_HBAC_DEFAULT_URI in modify_config conf (set_uri p)
   else ret tt);;;
  let* c := load_config conf in
  (if search_base c is None
   then let* p := strdup PAM_HBAC_DEFAULT_SEARCH_BASE in
        modify_config conf (set_search_base p)
   else ret tt);;;
  let* c := load_config conf in
  if bool_decide (search_base c = None) || bool_decide (uri c = None) then fail
  else
    let rest :=
      (let* c := load_config conf in
       (if timeout c =? 0
        then modify_config conf (set_timeout PAM_HBAC_DEFAULT_TIMEOUT)
        else ret tt);;;
       ret (Some conf)) in
    if hostname c is None then
      let* p := malloc HOST_NAME_MAX in
      modify_config conf (set_hostname p);;;
      if p is None then fail
      else
        let* r := gethostname p HOST_NAME_MAX in
        if r =? -1 then fail
        else poke p (Z.of_nat HOST_NAME_MAX - 1) NUL;;; rest
    else rest.

(** ** [get_key_value] *)

(** [strip(p)] for a pointer to the head of a heap block: the block keeps
    what the trailing loop wrote, the result is the string returned. *)
Definition strip_block (p : ptr) : M (list ascii) :=
  let* bs := load_chars p in
  let '(start, bs') := strip bs in
  match p with
  | Some l => store_chars l bs';;; ret (c_str (drop start bs'))
  | None => fault
  end.

(** [_key] and [_value] are passed as the contents the caller's variables
    have on entry; the contents they have on exit are returned.  [l] is not
    checked before the write through it.  The second [strip] works in place
    in the caller's line buffer, on the bytes after the separator. *)
Definition get_key_value (line : list ascii) (_key _value : ptr)
  : M (Z * (ptr * ptr)) :=
  match strchr line SEPARATOR with
  | None => ret (EINVAL, (_key, _value))
  | Some sep =>
      let* l := strdup line in
      poke l (Z.of_nat sep) NUL;;;
      let* k := strip_block l in
      let* key := strdup k in
      let* value := strdup (stripped (drop (S sep) line)) in
      free l;;;
      if bool_decide (key = None) || bool_decide (value = None)
      then ret (ENOMEM, (_key, _value))
      else ret (0, (key, value))
  end.

(** ** [read_config_line] *)

(** [while(isspace( *l)) ++l;] *)
Fixpoint skip_whitespace (l : list ascii) : list ascii :=
  match l with
  | [] => []
  | c :: l' => if isspace c then skip_whitespace l' else l
  end.

Definition read_config_line (line : list ascii) (conf : loc) : M Z :=
  let key : ptr := None in
  let value : ptr := None in
  let fail (ret_ : Z) (key value : ptr) := (free key;;; free value;;; ret ret_) in
  let l := skip_whitespace line in
  if Ascii.eqb (char_at l 0) "#" then fail EAGAIN key value
  else
    let* '(ret_, (key, value)) := get_key_value l key value in
    if negb (ret_ =? 0) then fail ret_ key value
    else
      let* k := load_chars key in
      let k := c_str k in
      (if strcasecmp k PAM_HBAC_CONFIG_URI =? 0 then
         modify_config conf (set_uri value)
       else if strcasecmp k PAM_HBAC_CONFIG_BIND_DN =? 0 then
         modify_config conf (set_bind_dn value)
       else if strcasecmp k PAM_HBAC_CONFIG_BIND_PW =? 0 then
         modify_config conf (set_bind_pw value)
       else if strcasecmp k PAM_HBAC_CONFIG_SEARCH_BASE =? 0 then
         modify_config conf (set_search_base value)
       else if strcasecmp k PAM_HBAC_CONFIG_HOST_NAME =? 0 then
         modify_config conf (set_hostname value)
       else free value);;;
      free key;;;
      ret 0.

(** ** [ph_read_config] *)

(** [fgets(line, n + 1, fp)] on the unread part of the file: at most [n]
    bytes, up to and including the first newline; the pair is the bytes
    stored in [line] and what is left to read. *)
Fixpoint fgets (n : nat) (rest : list ascii) : list ascii * list ascii :=
  match n, rest with
  | O, _ => ([], rest)
  | _, [] => ([], [])
  | S n', c :: rest' =>
      if Ascii.eqb c "010" then ([c], rest')
      else let '(line, rest'') := fgets n' rest' in (c :: line, rest'')
  end.

(** The successive buffers [fgets] delivers until it returns [NULL] at end
    of file.  Every call consumes a byte, so [fuel] need not exceed the
    length of the file. *)
Fixpoint fgets_lines (fuel : nat) (rest : list ascii) : list (list ascii) :=
  match fuel with
  | O => []
  | S fuel' =>
      match rest with
      | [] => []
      | _ => let '(line, rest') := fgets (MAX_LINE - 1) rest in
             line :: fgets_lines fuel' rest'
      end
  end.

Definition file_lines (contents : list ascii) : list (list ascii) :=
  fgets_lines (length contents) contents.

(** The [while] loop: [Some ret] when a line made it [goto done] with the
    error [ret], [None] when [fgets] ran out of lines. *)
Fixpoint read_lines (lines : list (list ascii)) (conf : loc) : M (option Z) :=
  match lines with
  | [] => ret None
  | line :: lines' =>
      let* ret_ := read_config_line line conf in
      if ret_ =? EAGAIN then read_lines lines' conf
      else if negb (ret_ =? 0) then ret (Some ret_)
      else read_lines lines' conf
  end.

Definition write_conf_out (p : ptr) : M unit := fun _ s =>
  Ret tt (mk_state (heap s) (nallocs s) p).

Definition ph_read_config (config_file : list ascii) : M Z := fun w =>
  match sys_fopen w config_file with
  | inl errno => ret (Zpos errno) w
  | inr contents =>
      (let done (ret_ : Z) (conf : ptr) :=
         ((if negb (ret_ =? 0) then ph_cleanup_config conf else ret tt);;;
          ret ret_) in
       let* conf := calloc_config in
       match conf with
       | None => done ENOMEM conf
       | Some cl =>
           let* r := read_lines (file_lines contents) cl in
           match r with
           | Some ret_ => done ret_ conf
           | None =>
               let* conf := default_config cl in
               if conf is None then done ENOMEM conf
               else write_conf_out conf;;; done 0 conf
           end
       end) w
  end.

(** ** Vocabulary for the statements *)

Definition key_name (f : field) : list ascii :=
  match f with
  | f_uri => PAM_HBAC_CONFIG_URI
  | f_bind_dn => PAM_HBAC_CONFIG_BIND_DN
  | f_bind_pw => PAM_HBAC_CONFIG_BIND_PW
  | f_search_base => PAM_HBAC_CONFIG_SEARCH_BASE
  | f_hostname => PAM_HBAC_CONFIG_HOST_NAME
  end.

(** The branch the [strcasecmp] chain of [read_config_line] takes for a key:
    the first name that compares equal, if any. *)
Definition key_field (k : list ascii) : option field :=
  if strcasecmp k PAM_HBAC_CONFIG_URI =? 0 then Some f_uri
  else if strcasecmp k PAM_HBAC_CONFIG_BIND_DN =? 0 then Some f_bind_dn
  else if strcasecmp k PAM_HBAC_CONFIG_BIND_PW =? 0 then Some f_bind_pw
  else if strcasecmp k PAM_HBAC_CONFIG_SEARCH_BASE =? 0 then Some f_search_base
  else if strcasecmp k PAM_HBAC_CONFIG_HOST_NAME =? 0 then Some f_hostname
  else None.

(** A comment line, as [read_config_line] tests it. *)
Definition is_comment (line : list ascii) : bool :=
  Ascii.eqb (char_at (skip_whitespace line) 0) "#".

(** The two strings [get_key_value] copies out of a line [l] whose first
    separator is at offset [sep]. *)
Definition key_text (l : list ascii) (sep : nat) : list ascii :=
  stripped (<[sep := NUL]> (c_str l ++ [NUL])).
Definition value_text (l : list ascii) (sep : nat) : list ascii :=
  stripped (drop (S sep) l).

(** The field a line sets and the text it sets it to, if it sets one. *)
Definition line_setting (line : list ascii) : option (field * list ascii) :=
  let l := skip_whitespace line in
  if is_comment line then None
  else match strchr l SEPARATOR with
       | None => None
       | Some sep =>
           match key_field (key_text l sep) with
           | Some f => Some (f, value_text l sep)
           | None => None
           end
       end.

(** The text the lines of a file leave in field [f], starting from [acc]:
    the last line that sets the field wins. *)
Fixpoint file_setting (f : field) (lines : list (list ascii))
    (acc : option (list ascii)) : option (list ascii) :=
  match lines with
  | [] => acc
  | line :: lines' =>
      file_setting f lines'
        (match line_setting line with
         | Some (g, v) => if bool_decide (g = f) then Some v else acc
         | None => acc
         end)
  end.

(** The heap a line leaves behind when it is tokenized and all three
    allocations succeed: the value stays, in the field its key selects, or
    nothing stays at all. *)
Definition heap_after_line (h : gmap loc block) (conf : loc) (c : pam_hbac_config)
    (l : list ascii) (sep : nat) (vp : loc) : gmap loc block :=
  match key_field (key_text l sep) with
  | Some f => <[conf := Config (set_field f (Some vp) c)]>
                (<[vp := Chars (value_text l sep ++ [NUL])]> h)
  | None => h
  end.

(** A line the tokenizer cannot split: not a comment, and no separator
    before the terminator. *)
Definition malformed (line : list ascii) : bool :=
  negb (is_comment line) &&
  bool_decide (strchr (skip_whitespace line) SEPARATOR = None).

(** The record [c'] in [h'] is the record [c] of [h] after a defaulting
    pass that succeeded. *)
Definition defaulted_record (conf : loc) (c c' : pam_hbac_config)
    (h h' : gmap loc block) : Prop :=
  h' !! conf = Some (Config c') /\
  timeout c' = (if timeout c =? 0 then PAM_HBAC_DEFAULT_TIMEOUT else timeout c) /\
  bind_dn c' = bind_dn c /\ bind_pw c' = bind_pw c /\
  defaulted h h' (uri c) (uri c') PAM_HBAC_DEFAULT_URI /\
  defaulted h h' (search_base c) (search_base c') PAM_HBAC_DEFAULT_SEARCH_BASE /\
  hostname_filled h h' (hostname c) (hostname c') HOST_NAME_MAX /\
  frame conf h h'.

(** How a run [r] of the defaulting pass on the record [c] at [conf] can
    end: at the [fail] label, from a state whose record the cleanup can
    release, or with every unset field of the record filled. *)
Definition defaulting_outcome (conf : loc) (c : pam_hbac_config) (w : world)
    (s : state) (r : result ptr) : Prop :=
  (exists s1,
     r = (ph_cleanup_config (Some conf);;; ret None) w s1 /\
     conf_out s1 = conf_out s /\
     (forall t σ, record_inv (heap s) conf t σ ->
                  exists σ', record_inv (heap s1) conf t σ'))
  \/
  (exists s' c',
     r = Ret (Some conf) s' /\
     conf_out s' = conf_out s /\
     defaulted_record conf c c' (heap s) (heap s')).

(** The load returned the error [e] and left no trace: the caller's
    variable is as it was and the record the load had allocated, at the
    first free location of the heap, is not live any more. *)
Definition load_fails_cleanly (path : list ascii) (w : world) (s : state)
    (e : Z) : Prop :=
  e <> 0 /\
  exists s', ph_read_config path w s = Ret e s' /\
             conf_out s' = conf_out s /\
             heap s' !! fresh (dom (heap s)) = None.

(** ** The file format in the words of the specification *)

(** Following the specification, not the code: a text with the whitespace
    at its head taken away, and with the whitespace at both ends taken
    away. *)
Fixpoint spec_trim_left (t : list ascii) : list ascii :=
  match t with
  | [] => []
  | c :: t' => if isspace c then spec_trim_left t' else t
  end.

Definition spec_trim (t : list ascii) : list ascii :=
  reverse (spec_trim_left (reverse (spec_trim_left t))).

(** Following the specification: the left and the right substring of a
    text around the first occurrence of the separator. *)
Fixpoint spec_split (t : list ascii) : option (list ascii * list ascii) :=
  match t with
  | [] => None
  | c :: t' =>
      if Ascii.eqb c SEPARATOR then Some ([], t')
      else match spec_split t' with
           | Some (k, v) => Some (c :: k, v)
           | None => None
           end
  end.

(** Following the specification: the recognized key a trimmed key names
    when the two are compared without regard to case. *)
Definition spec_key_field (k : list ascii) : option field :=
  find (fun f => strcasecmp k (key_name f) =? 0)
       [f_uri; f_bind_dn; f_bind_pw; f_search_base; f_hostname].

(** Following the specification: what a line of the file says.  The text
    of the line ends at its terminator; after the leading whitespace a [#]
    starts a comment; any other line is a key and a value around the first
    separator, each trimmed, and says something when the key is a
    recognized one. *)
Definition spec_directive (line : list ascii) : option (field * list ascii) :=
  let t := spec_trim_left (c_str line) in
  if bool_decide (head t = Some "#"%char) then None
  else match spec_split t with
       | Some (k, v) =>
           match spec_key_field (spec_trim k) with
           | Some f => Some (f, spec_trim v)
           | None => None
           end
       | None => None
       end.

(** Following the specification: the value the lines of a file give the
    field [f], that of the last line that sets it. *)
Definition spec_file_value (f : field) (lines : list (list ascii))
    : option (list ascii) :=
  last (omap (fun line =>
                match spec_directive line with
                | Some (g, v) => if bool_decide (g = f) then Some v else None
                | None => None
                end) lines).

End Parser.

Definition all_allocations_succeed (w : world) : Prop :=
  forall n, malloc_ok w n = true.

Definition str (s : string) : list ascii := list_ascii_of_string s.

(** Modelled from the spec: the key names and compile-time defaults of
    [pam_hbac.h] and [config.h], which the sources at hand do not include;
    used for the concrete runs only. *)
Definition example_macros : Macros := {|
  PAM_HBAC_CONFIG_URI := str "ldap_uri";
  PAM_HBAC_CONFIG_BIND_DN := str "ldap_bind_dn";
  PAM_HBAC_CONFIG_BIND_PW := str "ldap_bind_pw";
  PAM_HBAC_CONFIG_SEARCH_BASE := str "ldap_search_base";
  PAM_HBAC_CONFIG_HOST_NAME := str "host_name";
  PAM_HBAC_DEFAULT_URI := str "ldap://localhost";
  PAM_HBAC_DEFAULT_SEARCH_BASE := str "dc=localdomain";
  PAM_HBAC_DEFAULT_TIMEOUT := 5;
  HOST_NAME_MAX := 8
|}.

Definition nl : list ascii := ["010"%char].

Definition example_file : list ascii :=
  str "ldap_uri = ldap://dir.example.com" ++ nl ++
  str "# comment" ++ nl ++
  str "LDAP_Search_Base=dc=example,dc=com" ++ nl.

(** A machine on which the [n]-th allocation succeeds when [ok n], the
    configuration file reads [contents] and the host is called
    [a-long-host-name]. *)
Definition example_world_with (ok : nat -> bool) (contents : list ascii) : world := {|
  malloc_ok := ok;
  malloc_junk := fun _ => "J"%char;
  sys_fopen := fun _ => inr contents;
  sys_gethostname := fun _ => inr (str "a-long-host-name")
|}.

Definition example_world (contents : list ascii) : world :=
  example_world_with (fun _ => true) contents.

(** A machine without the configuration file ([ENOENT] is 2). *)
Definition world_without_file : world := {|
  malloc_ok := fun _ => true;
  malloc_junk := fun _ => "J"%char;
  sys_fopen := fun _ => inl 2%positive;
  sys_gethostname := fun _ => inr (str "a-long-host-name")
|}.

Definition empty_state : state := mk_state ∅ 0 None.

(** A state whose only block is a zeroed record, at location 0. *)
Definition record_state : state := mk_state {[ 0%nat := Config zero_config ]} 0 None.

Definition final_state {A} (r : result A) : state :=
  match r with
  | Ret _ s => s
  | Fault => empty_state
  end.

(** The state a load of [example_file] ends in. *)
Definition example_loaded_state : state :=
  Eval vm_compute in
    final_state (@ph_read_config example_macros [] (example_world example_file) empty_state).

(** The state the defaulting pass ends in on the zeroed record. *)
Definition example_defaulted_state : state :=
  Eval vm_compute in
    final_state (@default_config example_macros 0%nat (example_world []) record_state).

(** The byte that ends a line. *)
Definition newline : ascii := "010"%char.

(** A record whose strings, [bind_pw] apart, are set, and a state that
    holds it at location 0 with its four strings. *)
Definition example_set_record : pam_hbac_config :=
  mk_config (Some 1%nat) (Some 2%nat) (Some 3%nat) None (Some 4%nat) 0.

Definition example_set_state : state :=
  mk_state
    (list_to_map
       [(0%nat, Config example_set_record);
        (1%nat, Chars (str "ldap://old" ++ [NUL]));
        (2%nat, Chars (str "dc=old" ++ [NUL]));
        (3%nat, Chars (str "cn=admin" ++ [NUL]));
        (4%nat, Chars (str "client" ++ [NUL]))])
    0 None.

(** A machine on which only the first allocation succeeds. *)
Definition example_world_first_only : world :=
  example_world_with (fun n => (n =? 0)%nat) [].

(** A file that sets the bind name, and the host name twice. *)
Definition example_bind_file : list ascii :=
  str "ldap_bind_dn =  cn=admin,dc=example " ++ nl ++
  str "host_name=first" ++ nl ++
  str "  Host_Name =   client.example.com  " ++ nl.

(** The state a load of [example_bind_file] ends in. *)
Definition example_bind_loaded_state : state :=
  Eval vm_compute in
    final_state (@ph_read_config example_macros [] (example_world example_bind_file)
                   empty_state).

(** A machine with the file [contents] on which the record can be
    allocated and nothing after it. *)
Definition example_world_record_only (contents : list ascii) : world :=
  example_world_with (fun n => (n =? 0)%nat) contents.

(** The state a load of [example_file] ends in when it starts from
    [record_state]. *)
Definition example_reloaded_state : state :=
  Eval vm_compute in
    final_state (@ph_read_config example_macros [] (example_world example_file) record_state).

(** ** Tactics *)

(** Projections of a state that is given as a record. *)
Ltac state_simpl := cbn [heap nallocs conf_out set_heap].

(** Side conditions on concrete strings: whitespace only, trimmed, free
    of a given character. *)
Ltac blank_tac := unfold blank; repeat constructor.
Ltac trimmed_tac :=
  split_and!;
    [ repeat constructor
    | by (intros ? [= <-])
    | by (simpl; intros ? [= <-]) ].
Ltac absent_tac :=
  let Hin := fresh in
  intros Hin; apply list_elem_of_In in Hin; simpl in Hin;
  repeat (destruct Hin as [Hin|Hin]; [discriminate Hin|]); exact Hin.

(** * Properties *)

(** ** Characters and strings *)

Lemma isspace_not_nul c : isspace c = true -> is_nul c = false.
Proof.
  unfold is_nul. destruct (Ascii.eqb_spec c NUL) as [->|]; [|done].
  by vm_compute.
Qed.

Lemma isspace_not_sep c : isspace c = true -> Ascii.eqb c SEPARATOR = false.
Proof.
  destruct (Ascii.eqb_spec c SEPARATOR) as [->|]; [|done].
  by vm_compute.
Qed.

Lemma c_str_app_nul s t :
  Forall (fun c => is_nul c = false) s -> c_str t = [] -> c_str (s ++ t) = s.
Proof.
  induction 1 as [|c s Hc _ IH]; intros Ht; simpl; [done|].
  rewrite Hc. by rewrite IH.
Qed.

Lemma c_str_nonul s : Forall (fun c => is_nul c = false) (c_str s).
Proof.
  induction s as [|c s IH]; simpl; [constructor|].
  destruct (is_nul c) eqn:E; [constructor|]. by constructor.
Qed.

Lemma c_str_idemp s : c_str (c_str s) = c_str s.
Proof.
  rewrite <- (app_nil_r (c_str s)) at 1.
  apply c_str_app_nul; [apply c_str_nonul | done].
Qed.

Lemma blank_nonul w : blank w -> Forall (fun c => is_nul c = false) w.
Proof. intros Hw. eapply Forall_impl; [exact Hw|]. intros c. apply isspace_not_nul. Qed.

Lemma char_at_app_r (a b : list ascii) :
  char_at (a ++ b) (length a) = char_at b 0.
Proof.
  unfold char_at. rewrite app_nth2 by lia. by rewrite Nat.sub_diag.
Qed.

Lemma skip_leading_app w x :
  blank w -> (forall c, head x = Some c -> isspace c = false) ->
  skip_leading (w ++ x) = length w.
Proof.
  intros Hw Hx. induction Hw as [|c w Hc Hw IH]; simpl.
  - destruct x as [|c x]; [done|]. simpl.
    rewrite (Hx c eq_refl). by rewrite andb_false_r.
  - rewrite Hc, (isspace_not_nul _ Hc). simpl. by rewrite IH.
Qed.

Lemma skip_whitespace_app w x :
  blank w -> (forall c, head x = Some c -> isspace c = false) ->
  skip_whitespace (w ++ x) = x.
Proof.
  intros Hw Hx. induction Hw as [|c w Hc Hw IH]; simpl.
  - destruct x as [|c x]; [done|]. simpl. by rewrite (Hx c eq_refl).
  - by rewrite Hc.
Qed.

(** The trailing loop of [strip] overwrites exactly the whitespace that
    follows the last character which is not whitespace. *)
Lemma trim_trailing_blank tws : forall pre rest n (start : nat),
  blank tws ->
  (length tws <= n)%nat ->
  (start < length pre)%nat ->
  isspace (char_at pre (length pre - 1)) = false ->
  trim_trailing n (pre ++ tws ++ rest) (Z.of_nat start)
    (Z.of_nat (length pre + length tws) - 1)
  = pre ++ repeat NUL (length tws) ++ rest.
Proof.
  induction tws as [|c tws IH] using rev_ind; intros pre rest n start Hb Hn Hs Hl.
  - simpl. rewrite Nat.add_0_r. destruct n as [|n]; [done|]. simpl.
    replace (Z.to_nat (Z.of_nat (length pre) - 1)) with (length pre - 1)%nat by lia.
    unfold char_at in *. rewrite app_nth1 by lia. rewrite Hl.
    by rewrite andb_false_r.
  - apply Forall_app in Hb as [Hb Hc]. rewrite Forall_singleton in Hc.
    rewrite length_app in *. simpl in *.
    destruct n as [|n]; [lia|]. simpl.
    replace (Z.to_nat (Z.of_nat (length pre + (length tws + 1)) - 1))
      with (length (pre ++ tws)) by (rewrite length_app; lia).
    replace (pre ++ (tws ++ [c]) ++ rest) with ((pre ++ tws) ++ c :: rest)
      by (by rewrite <- !app_assoc).
    rewrite char_at_app_r. unfold char_at at 1. simpl. rewrite Hc.
    replace (Z.of_nat (length pre + (length tws + 1)) - 1 >? Z.of_nat start)
      with true by (symmetry; apply Z.gtb_lt; lia).
    simpl. rewrite insert_app_r_alt by lia. rewrite Nat.sub_diag. simpl.
    rewrite <- app_assoc.
    replace (Z.of_nat (length pre + (length tws + 1)) - 1 - 1)
      with (Z.of_nat (length pre + length tws) - 1) by lia.
    rewrite IH by (done || lia).
    rewrite repeat_app. simpl. by rewrite <- !app_assoc.
Qed.

Lemma strlen_app_nul s t :
  Forall (fun c => is_nul c = false) s -> c_str t = [] -> strlen (s ++ t) = length s.
Proof. intros. unfold strlen. by rewrite c_str_app_nul. Qed.

(** [strip] returns its argument without the whitespace around it. *)
Lemma stripped_spec w x w' tail :
  blank w -> blank w' -> trimmed x -> c_str tail = [] ->
  stripped (w ++ x ++ w' ++ tail) = x.
Proof.
  intros Hw Hw' (Hnul & Hhd & Hlast) Htail.
  unfold stripped, strip.
  assert (Hlen : strlen (w ++ x ++ w' ++ tail) = length (w ++ x ++ w')).
  { replace (w ++ x ++ w' ++ tail) with ((w ++ x ++ w') ++ tail)
      by (by rewrite <- !app_assoc).
    apply strlen_app_nul; [|done].
    rewrite !Forall_app. auto using blank_nonul. }
  rewrite Hlen, !length_app.
  destruct (decide (x = [])) as [->|Hx].
  - simpl.
    replace (w ++ w' ++ tail) with ((w ++ w') ++ tail) by (by rewrite <- app_assoc).
    rewrite skip_leading_app.
    + rewrite length_app.
      replace (Z.to_nat _) with 0%nat by lia. simpl.
      rewrite drop_app_length'; [done | by rewrite length_app].
    + by apply Forall_app.
    + destruct tail as [|c tail]; [done|]. simpl in *. intros ? [= <-].
      destruct (is_nul c) eqn:E; [|done].
      apply Ascii.eqb_eq in E. by subst.
  - rewrite skip_leading_app; [|done|].
    2:{ intros c Hc. apply Hhd. destruct x; [done|exact Hc]. }
    destruct (exists_last Hx) as (x' & c & ->).
    assert (Hc : isspace c = false) by (apply Hlast; by rewrite last_snoc).
    replace (w ++ (x' ++ [c]) ++ w' ++ tail) with ((w ++ x' ++ [c]) ++ w' ++ tail)
      by (by rewrite <- !app_assoc).
    replace (Z.of_nat (length w + (length (x' ++ [c]) + length w')) - 1)
      with (Z.of_nat (length (w ++ x' ++ [c]) + length w') - 1)
      by (rewrite !length_app; lia).
    rewrite trim_trailing_blank.
    + rewrite <- app_assoc, drop_app_length.
      apply c_str_app_nul; [done|].
      destruct w' as [|? w']; simpl; [done|]. done.
    + done.
    + rewrite !length_app. simpl. lia.
    + rewrite !length_app. simpl. lia.
    + replace (length (w ++ x' ++ [c]) - 1)%nat with (length (w ++ x'))
        by (rewrite !length_app; simpl; lia).
      rewrite app_assoc, char_at_app_r. done.
Qed.

Example strip_both_sides : stripped (str "  ldap uri 	 ") = str "ldap uri".
Proof. reflexivity. Qed.

Example strip_all_space : strip (str "   ") = (3%nat, str "   ").
Proof. reflexivity. Qed.

Example strip_empty : strip [] = (0%nat, []).
Proof. reflexivity. Qed.

Example strip_writes_terminators :
  strip (str "a  ") = (0%nat, ["a"%char; NUL; NUL]).
Proof. reflexivity. Qed.

Example file_lines_example :
  file_lines (str "a=b" ++ nl ++ nl ++ str "# c") = [str "a=b" ++ nl; nl; str "# c"].
Proof. reflexivity. Qed.

Lemma strchr_split s c sep :
  strchr s c = Some sep ->
  exists pre post,
    s = pre ++ c :: post /\ length pre = sep /\
    Forall (fun x => is_nul x = false) pre /\
    Forall (fun x => Ascii.eqb x c = false) pre.
Proof.
  revert sep. induction s as [|x s IH]; intros sep; simpl; [done|].
  destruct (Ascii.eqb_spec x c) as [->|Hne].
  - intros [= <-]. by exists [], s.
  - destruct (is_nul x) eqn:Hx; [done|].
    destruct (strchr s c) as [i|] eqn:Hs; [|done].
    intros [= <-]. destruct (IH i eq_refl) as (pre & post & -> & <- & Hn & Hc).
    exists (x :: pre), post. repeat split; try done.
    + by constructor.
    + constructor; [|done]. by apply Ascii.eqb_neq.
Qed.

Lemma strchr_app pre post c :
  Forall (fun x => is_nul x = false) pre ->
  Forall (fun x => Ascii.eqb x c = false) pre ->
  strchr (pre ++ c :: post) c = Some (length pre).
Proof.
  intros Hn Hc. induction pre as [|x pre IH]; simpl.
  - by rewrite Ascii.eqb_refl.
  - inversion_clear Hn. inversion_clear Hc.
    repeat match goal with E : _ = false |- _ => rewrite E; clear E end.
    by rewrite IH.
Qed.

Lemma strchr_absent s c : c ∉ s -> strchr s c = None.
Proof.
  induction s as [|x s IH]; intros Hc; simpl; [done|].
  apply not_elem_of_cons in Hc as [Hx Hs].
  destruct (Ascii.eqb_spec x c) as [->|_]; [done|].
  destruct (is_nul x); [done|]. by rewrite IH.
Qed.

Lemma skip_whitespace_suffix l : skip_whitespace l `suffix_of` l.
Proof.
  induction l as [|c l IH]; simpl; [done|].
  destruct (isspace c); [by apply suffix_cons_r | done].
Qed.

Lemma skip_whitespace_blank w : blank w -> skip_whitespace w = [].
Proof. induction 1 as [|c w Hc _ IH]; simpl; [done|]. by rewrite Hc. Qed.

Lemma tolower_nul c : tolower c = 0 <-> c = NUL.
Proof.
  split; [|by intros ->].
  unfold tolower, char_code. intros Hc.
  assert (nat_of_ascii c = 0%nat) as Hn.
  { destruct (_ && _) eqn:E; [|lia].
    apply andb_true_iff in E as [E _]. apply Z.leb_le in E. lia. }
  rewrite <- (ascii_nat_embedding c), Hn. done.
Qed.

Lemma is_nul_true c : is_nul c = true <-> c = NUL.
Proof. apply Ascii.eqb_eq. Qed.

(** [strcasecmp] returns zero exactly on strings that agree up to case. *)
Lemma strcasecmp_zero a : forall b,
  strcasecmp a b = 0 <-> tolower <$> c_str a = tolower <$> c_str b.
Proof.
  induction a as [|x a IH]; intros [|y b]; simpl.
  - done.
  - destruct (is_nul y) eqn:Ey.
    + apply is_nul_true in Ey as ->. done.
    + split; [|done]. intros Hy. assert (tolower y = 0) as Hy' by lia.
      apply tolower_nul in Hy'. subst y. done.
  - destruct (is_nul x) eqn:Ex.
    + apply is_nul_true in Ex as ->. done.
    + split; [|done]. intros Hx. apply tolower_nul in Hx. subst x. done.
  - destruct (tolower x =? tolower y) eqn:E.
    + apply Z.eqb_eq in E.
      destruct (is_nul x) eqn:Ex.
      * apply is_nul_true in Ex as ->.
        assert (y = NUL) as -> by (apply tolower_nul; by rewrite <- E).
        done.
      * assert (is_nul y = false) as ->.
        { destruct (is_nul y) eqn:Ey; [|done]. apply is_nul_true in Ey as ->.
          apply tolower_nul in E. subst x. done. }
        rewrite IH, !fmap_cons, E. split; [by intros ->|]. by intros [= ->].
    + apply Z.eqb_neq in E. split; [lia|].
      destruct (is_nul x) eqn:Ex, (is_nul y) eqn:Ey; rewrite ?fmap_cons; try done.
      * apply is_nul_true in Ex as ->. apply is_nul_true in Ey as ->. done.
      * intros [= ? ?]. done.
Qed.

Lemma strcasecmp_trans a b c :
  strcasecmp a b = 0 -> strcasecmp c b = 0 -> strcasecmp a c = 0.
Proof. rewrite !strcasecmp_zero. congruence. Qed.

(** ** The memory primitives *)

Lemma fresh_lookup (h : gmap loc block) : h !! fresh (dom h) = None.
Proof. apply not_elem_of_dom, is_fresh. Qed.

Lemma alloc_succeeds b w s :
  malloc_ok w (nallocs s) = true ->
  alloc b w s =
    Ret (Some (fresh (dom (heap s))))
        (mk_state (<[fresh (dom (heap s)) := b]> (heap s)) (S (nallocs s)) (conf_out s)).
Proof. intros Hok. unfold alloc. by rewrite Hok. Qed.

Lemma alloc_fails b w s :
  malloc_ok w (nallocs s) = false ->
  alloc b w s = Ret None (mk_state (heap s) (S (nallocs s)) (conf_out s)).
Proof. intros Hok. unfold alloc. by rewrite Hok. Qed.

Lemma free_live l b w s :
  heap s !! l = Some b ->
  free (Some l) w s = Ret tt (set_heap (delete l (heap s)) s).
Proof. intros Hl. unfold free. by rewrite Hl. Qed.

Lemma load_chars_live l bs w s :
  heap s !! l = Some (Chars bs) -> load_chars (Some l) w s = Ret bs s.
Proof. intros Hl. unfold load_chars. by rewrite Hl. Qed.

Lemma store_chars_live l bs bs' w s :
  heap s !! l = Some (Chars bs) ->
  store_chars l bs' w s = Ret tt (set_heap (<[l := Chars bs']> (heap s)) s).
Proof. intros Hl. unfold store_chars. by rewrite Hl. Qed.

Lemma poke_live l bs i c w s :
  heap s !! l = Some (Chars bs) -> (i < length bs)%nat ->
  poke (Some l) (Z.of_nat i) c w s =
    Ret tt (set_heap (<[l := Chars (<[i := c]> bs)]> (heap s)) s).
Proof.
  intros Hl Hi. unfold poke, bind. rewrite (load_chars_live _ _ _ _ Hl).
  replace ((0 <=? Z.of_nat i) && (Z.of_nat i <? Z.of_nat (length bs))) with true
    by (symmetry; apply andb_true_iff; split; [apply Z.leb_le|apply Z.ltb_lt]; lia).
  rewrite Nat2Z.id. by apply (store_chars_live _ bs).
Qed.

Lemma load_config_live l c w s :
  heap s !! l = Some (Config c) -> load_config l w s = Ret c s.
Proof. intros Hl. unfold load_config. by rewrite Hl. Qed.

Lemma modify_config_live l c f w s :
  heap s !! l = Some (Config c) ->
  modify_config l f w s = Ret tt (set_heap (<[l := Config (f c)]> (heap s)) s).
Proof. intros Hl. unfold modify_config. by rewrite Hl. Qed.

Lemma strip_block_live l bs w s :
  heap s !! l = Some (Chars bs) ->
  strip_block (Some l) w s =
    Ret (stripped bs) (set_heap (<[l := Chars (strip bs).2]> (heap s)) s).
Proof.
  intros Hl. unfold strip_block, bind, stripped.
  rewrite (load_chars_live _ _ _ _ Hl).
  destruct (strip bs) as [start bs'] eqn:E. simpl.
  by rewrite (store_chars_live _ _ _ _ _ Hl).
Qed.

Lemma c_str_split pre c post :
  Forall (fun x => is_nul x = false) pre -> is_nul c = false ->
  c_str (pre ++ c :: post) = pre ++ c :: c_str post.
Proof.
  intros Hn Hc. induction Hn as [|x pre Hx _ IH]; simpl.
  - by rewrite Hc.
  - by rewrite Hx, IH.
Qed.

Lemma blank_no_sep w : blank w -> Forall (fun x => Ascii.eqb x SEPARATOR = false) w.
Proof. intros Hw. eapply Forall_impl; [exact Hw|]. apply isspace_not_sep. Qed.

Lemma absent_no_sep k :
  SEPARATOR ∉ k -> Forall (fun x => Ascii.eqb x SEPARATOR = false) k.
Proof.
  intros Hk. apply Forall_forall. intros x Hx.
  apply Ascii.eqb_neq. intros ->. done.
Qed.

(** The tokenizer's view of a line whose text before the first separator
    is [key] followed by whitespace: the separator is found right after
    it, the key string is [key], and the value string is made from the text
    after the separator. *)
Lemma tokenize_key key w2 rest :
  blank w2 -> trimmed key -> SEPARATOR ∉ key ->
  let l := key ++ w2 ++ SEPARATOR :: rest in
  let sep := length (key ++ w2) in
  strchr l SEPARATOR = Some sep /\
  stripped (<[sep := NUL]> (c_str l ++ [NUL])) = key /\
  drop (S sep) l = rest.
Proof.
  intros Hw2 Hk Hsep l sep.
  assert (Hpre_nul : Forall (fun x => is_nul x = false) (key ++ w2)).
  { apply Forall_app. split; [apply Hk | by apply blank_nonul]. }
  assert (Hpre_sep : Forall (fun x => Ascii.eqb x SEPARATOR = false) (key ++ w2)).
  { apply Forall_app. split; [by apply absent_no_sep | by apply blank_no_sep]. }
  assert (Hl : l = (key ++ w2) ++ SEPARATOR :: rest)
    by (unfold l; by rewrite <- app_assoc).
  split_and!.
  - rewrite Hl. by apply strchr_app.
  - rewrite Hl, c_str_split by done.
    rewrite <- app_assoc. simpl.
    rewrite insert_app_r_alt by (unfold sep; lia).
    unfold sep. rewrite Nat.sub_diag. simpl.
    rewrite <- app_assoc.
    apply (stripped_spec [] key w2); try done. constructor.
  - rewrite Hl. unfold sep.
    replace ((key ++ w2) ++ SEPARATOR :: rest)
      with (((key ++ w2) ++ [SEPARATOR]) ++ rest)
      by (by rewrite <- (app_assoc _ [SEPARATOR])).
    apply drop_app_length'. rewrite (length_app _ [SEPARATOR]). simpl. lia.
Qed.

Lemma stripped_c_str s : c_str (stripped s) = stripped s.
Proof. unfold stripped. destruct (strip s). apply c_str_idemp. Qed.

Lemma delete_fresh_insert (h : gmap loc block) lp b :
  h !! lp = None -> delete lp (<[lp := b]> h) = h.
Proof. intros. rewrite delete_insert_eq. by apply delete_id. Qed.

Section Proofs.
Context `{Macros}.

(** What [get_key_value] does on a line with a separator once the copy of
    the line is allocated, for each outcome of the two [strdup] calls that
    follow. *)
Lemma get_key_value_run l sep k0 v0 w s :
  strchr l SEPARATOR = Some sep ->
  malloc_ok w (nallocs s) = true ->
  let n := nallocs s in
  let K := Chars (key_text l sep ++ [NUL]) in
  let V := Chars (value_text l sep ++ [NUL]) in
  match malloc_ok w (S n), malloc_ok w (S (S n)) with
  | true, true =>
      exists kp vp, kp <> vp /\ heap s !! kp = None /\ heap s !! vp = None /\
        get_key_value l k0 v0 w s =
          Ret (0, (Some kp, Some vp))
              (mk_state (<[vp := V]> (<[kp := K]> (heap s))) (3 + n) (conf_out s))
  | true, false =>
      exists kp, heap s !! kp = None /\
        get_key_value l k0 v0 w s =
          Ret (ENOMEM, (k0, v0)) (mk_state (<[kp := K]> (heap s)) (3 + n) (conf_out s))
  | false, true =>
      exists vp, heap s !! vp = None /\
        get_key_value l k0 v0 w s =
          Ret (ENOMEM, (k0, v0)) (mk_state (<[vp := V]> (heap s)) (3 + n) (conf_out s))
  | false, false =>
      get_key_value l k0 v0 w s =
        Ret (ENOMEM, (k0, v0)) (mk_state (heap s) (3 + n) (conf_out s))
  end.
Proof.
  intros Hsep Ha n K V.
  pose proof (fresh_lookup (heap s)) as Hlp.
  set (lp := fresh (dom (heap s))) in *.
  set (L := Chars (strip (<[sep:=NUL]> (c_str l ++ [NUL]))).2).
  assert (Hpre : get_key_value l k0 v0 w s =
    (let* key := alloc K in
     let* value := alloc V in
     free (Some lp);;;
     if bool_decide (key = None) || bool_decide (value = None)
     then ret (ENOMEM, (k0, v0))
     else ret (0, (key, value))) w
    (mk_state (<[lp := L]> (heap s)) (S n) (conf_out s))).
  { unfold get_key_value. rewrite Hsep.
    assert (Hlt : (sep < length (c_str l ++ [NUL]))%nat).
    { apply strchr_split in Hsep as (pre & post & -> & <- & Hn & _).
      rewrite c_str_split by done. rewrite !length_app. simpl. lia. }
    unfold bind at 1. unfold strdup at 1. rewrite alloc_succeeds by done.
    fold lp. unfold bind at 1.
    rewrite (poke_live lp (c_str l ++ [NUL]) sep) by (done || apply lookup_insert_eq).
    unfold bind at 1.
    rewrite (strip_block_live lp (<[sep:=NUL]> (c_str l ++ [NUL])))
      by apply lookup_insert_eq.
    unfold set_heap. state_simpl. rewrite !insert_insert_eq.
    unfold strdup. rewrite !stripped_c_str. done. }
  rewrite Hpre. clear Hpre. clearbody lp L.
  assert (Hfree : forall h n' o, h !! lp = Some L ->
    free (Some lp) w (mk_state h n' o) = Ret tt (mk_state (delete lp h) n' o)).
  { intros h n' o Hh. by rewrite (free_live lp L). }
  destruct (malloc_ok w (S n)) eqn:Hb, (malloc_ok w (S (S n))) eqn:Hc.
  - unfold bind at 1. rewrite alloc_succeeds by done. state_simpl.
    pose proof (fresh_lookup (<[lp:=L]> (heap s))) as Hkp.
    set (kp := fresh (dom (<[lp:=L]> (heap s)))) in *. clearbody kp.
    apply lookup_insert_None in Hkp as [Hkp Hkl].
    unfold bind at 1. rewrite alloc_succeeds by done. state_simpl.
    pose proof (fresh_lookup (<[kp:=K]> (<[lp:=L]> (heap s)))) as Hvp.
    set (vp := fresh (dom (<[kp:=K]> (<[lp:=L]> (heap s))))) in *. clearbody vp.
    apply lookup_insert_None in Hvp as [Hvp Hvk].
    apply lookup_insert_None in Hvp as [Hvp Hvl].
    exists kp, vp. repeat split; try done.
    unfold bind at 1. rewrite Hfree
      by (rewrite !lookup_insert_ne by done; apply lookup_insert_eq).
    simpl. unfold ret. rewrite !delete_insert_ne by done.
    by rewrite delete_fresh_insert.
  - unfold bind at 1. rewrite alloc_succeeds by done. state_simpl.
    pose proof (fresh_lookup (<[lp:=L]> (heap s))) as Hkp.
    set (kp := fresh (dom (<[lp:=L]> (heap s)))) in *. clearbody kp.
    apply lookup_insert_None in Hkp as [Hkp Hkl].
    unfold bind at 1. rewrite alloc_fails by done. state_simpl.
    exists kp. split; [done|].
    unfold bind at 1. rewrite Hfree
      by (rewrite !lookup_insert_ne by done; apply lookup_insert_eq).
    simpl. unfold ret. rewrite !delete_insert_ne by done.
    by rewrite delete_fresh_insert.
  - unfold bind at 1. rewrite alloc_fails by done. state_simpl.
    unfold bind at 1. rewrite alloc_succeeds by done. state_simpl.
    pose proof (fresh_lookup (<[lp:=L]> (heap s))) as Hvp.
    set (vp := fresh (dom (<[lp:=L]> (heap s)))) in *. clearbody vp.
    apply lookup_insert_None in Hvp as [Hvp Hvl].
    exists vp. split; [done|].
    unfold bind at 1. rewrite Hfree
      by (rewrite !lookup_insert_ne by done; apply lookup_insert_eq).
    simpl. unfold ret. rewrite !delete_insert_ne by done.
    by rewrite delete_fresh_insert.
  - unfold bind at 1. rewrite alloc_fails by done. state_simpl.
    unfold bind at 1. rewrite alloc_fails by done. state_simpl.
    unfold bind at 1. rewrite Hfree by apply lookup_insert_eq.
    simpl. unfold ret. by rewrite delete_fresh_insert.
Qed.

Lemma get_key_value_null_copy l sep k0 v0 w s :
  strchr l SEPARATOR = Some sep ->
  malloc_ok w (nallocs s) = false ->
  get_key_value l k0 v0 w s = Fault.
Proof.
  intros Hsep Ha. unfold get_key_value. rewrite Hsep.
  unfold bind at 1. unfold strdup at 1. by rewrite alloc_fails by done.
Qed.

Lemma key_dispatch k conf value :
  (if strcasecmp k PAM_HBAC_CONFIG_URI =? 0 then
     modify_config conf (set_uri value)
   else if strcasecmp k PAM_HBAC_CONFIG_BIND_DN =? 0 then
     modify_config conf (set_bind_dn value)
   else if strcasecmp k PAM_HBAC_CONFIG_BIND_PW =? 0 then
     modify_config conf (set_bind_pw value)
   else if strcasecmp k PAM_HBAC_CONFIG_SEARCH_BASE =? 0 then
     modify_config conf (set_search_base value)
   else if strcasecmp k PAM_HBAC_CONFIG_HOST_NAME =? 0 then
     modify_config conf (set_hostname value)
   else free value)
  = match key_field k with
    | Some f => modify_config conf (set_field f value)
    | None => free value
    end.
Proof.
  unfold key_field.
  repeat match goal with |- context [if ?b then _ else _] => destruct b; [done|] end.
  done.
Qed.

Lemma c_str_key_text l sep : c_str (key_text l sep ++ [NUL]) = key_text l sep.
Proof.
  unfold key_text. rewrite <- (stripped_c_str (<[sep:=NUL]> _)) at 1.
  rewrite c_str_app_nul; [apply stripped_c_str | apply c_str_nonul | done].
Qed.

(** Every run of [read_config_line] on a live record. *)
Lemma read_config_line_run line conf c w s :
  heap s !! conf = Some (Config c) ->
  let l := skip_whitespace line in
  let n := nallocs s in
  let leak b := Ret ENOMEM (mk_state b (3 + n) (conf_out s)) in
  if is_comment line then read_config_line line conf w s = Ret EAGAIN s
  else match strchr l SEPARATOR with
  | None => read_config_line line conf w s = Ret EINVAL s
  | Some sep =>
      match malloc_ok w n, malloc_ok w (S n), malloc_ok w (S (S n)) with
      | false, _, _ => read_config_line line conf w s = Fault
      | true, true, true =>
          exists vp, heap s !! vp = None /\
            read_config_line line conf w s =
              Ret 0 (mk_state (heap_after_line (heap s) conf c l sep vp)
                              (3 + n) (conf_out s))
      | true, true, false =>
          exists kp, heap s !! kp = None /\
            read_config_line line conf w s =
              leak (<[kp := Chars (key_text l sep ++ [NUL])]> (heap s))
      | true, false, true =>
          exists vp, heap s !! vp = None /\
            read_config_line line conf w s =
              leak (<[vp := Chars (value_text l sep ++ [NUL])]> (heap s))
      | true, false, false =>
          read_config_line line conf w s = leak (heap s)
      end
  end.
Proof.
  intros Hconf l n leak. unfold read_config_line. fold (is_comment line). fold l.
  destruct (is_comment line); [done|].
  destruct (strchr l SEPARATOR) as [sep|] eqn:Hsep.
  2:{ unfold bind at 1, get_key_value. by rewrite Hsep. }
  destruct (malloc_ok w n) eqn:Ha.
  2:{ unfold bind at 1. rewrite (get_key_value_null_copy _ sep) by done.
      by destruct (malloc_ok w (S n)), (malloc_ok w (S (S n))). }
  pose proof (get_key_value_run l sep None None w s Hsep Ha) as Hrun.
  fold n in Hrun. cbv zeta in Hrun.
  destruct (malloc_ok w (S n)), (malloc_ok w (S (S n))).
  - destruct Hrun as (kp & vp & Hne & Hkp & Hvp & Hrun).
    assert (conf <> kp /\ conf <> vp) as [Hck Hcv] by (split; congruence).
    exists vp. split; [done|]. unfold bind at 1. rewrite Hrun. cbn beta iota.
    change (negb (0 =? 0)) with false. cbn iota.
    unfold bind at 1.
    rewrite (load_chars_live kp (key_text l sep ++ [NUL]))
      by (state_simpl; rewrite lookup_insert_ne by done; apply lookup_insert_eq).
    rewrite c_str_key_text, key_dispatch. unfold heap_after_line.
    destruct (key_field (key_text l sep)) as [f|].
    + unfold bind at 1.
      rewrite (modify_config_live conf c)
        by (state_simpl; by rewrite !lookup_insert_ne by done).
      unfold set_heap. state_simpl.
      unfold bind at 1.
      erewrite free_live; last first.
      { state_simpl. rewrite !lookup_insert_ne by done. apply lookup_insert_eq. }
      unfold set_heap, ret. state_simpl. do 2 f_equal.
      rewrite !delete_insert_ne by done. by rewrite delete_fresh_insert.
    + unfold bind at 1.
      erewrite free_live; last first.
      { state_simpl. apply lookup_insert_eq. }
      unfold set_heap. state_simpl.
      rewrite delete_fresh_insert by (by rewrite lookup_insert_ne).
      unfold bind at 1.
      erewrite free_live; last first.
      { state_simpl. apply lookup_insert_eq. }
      unfold set_heap, ret. state_simpl. by rewrite delete_fresh_insert.
  - destruct Hrun as (kp & Hkp & Hrun). exists kp. split; [done|].
    unfold bind at 1. by rewrite Hrun.
  - destruct Hrun as (vp & Hvp & Hrun). exists vp. split; [done|].
    unfold bind at 1. by rewrite Hrun.
  - unfold bind at 1. by rewrite Hrun.
Qed.

(** ** The record invariant *)

Lemma string_at_live h p t :
  string_at h p = Some t ->
  exists l bs, p = Some l /\ h !! l = Some (Chars bs) /\ c_str bs = t.
Proof.
  unfold string_at. destruct p as [l|]; [|done].
  destruct (h !! l) as [[bs|]|] eqn:E; try done.
  intros [= <-]. by exists l, bs.
Qed.

Lemma string_at_frame (h h' : gmap loc block) p t :
  (forall l b, h !! l = Some (Chars b) -> h' !! l = Some (Chars b)) ->
  string_at h p = Some t -> string_at h' p = Some t.
Proof.
  intros Hfr Hp. apply string_at_live in Hp as (l & bs & -> & Hl & <-).
  unfold string_at. by rewrite (Hfr _ _ Hl).
Qed.

Lemma field_holds_frame (h h' : gmap loc block) p o :
  (forall l b, h !! l = Some (Chars b) -> h' !! l = Some (Chars b)) ->
  field_holds h p o -> field_holds h' p o.
Proof. destruct o; simpl; [apply string_at_frame | done]. Qed.

(** A field of a record under the invariant is [NULL] or a live string. *)
Lemma field_holds_cases h p o :
  field_holds h p o ->
  p = None \/ exists l bs, p = Some l /\ h !! l = Some (Chars bs).
Proof.
  destruct o as [t|]; simpl; [|by left].
  intros Hp. apply string_at_live in Hp as (l & bs & -> & Hl & _).
  right. by exists l, bs.
Qed.

Lemma get_set_field_eq f p c : get_field f (set_field f p c) = p.
Proof. by destruct f. Qed.

Lemma get_set_field_ne f g p c : f <> g -> get_field g (set_field f p c) = get_field g c.
Proof. by destruct f, g. Qed.

Lemma timeout_set_field f p c : timeout (set_field f p c) = timeout c.
Proof. by destruct f. Qed.

(** Blocks that come to life elsewhere do not disturb the invariant. *)
Lemma record_inv_alloc h conf t σ p b :
  record_inv h conf t σ -> h !! p = None -> record_inv (<[p := b]> h) conf t σ.
Proof.
  intros (c & Hc & Ht & Hf & Hd) Hp. exists c. repeat split; try done.
  - rewrite lookup_insert_ne; [done | congruence].
  - intros f. eapply field_holds_frame; [|apply Hf].
    intros l b' Hl. rewrite lookup_insert_ne; [done | congruence].
Qed.

(** Pointing a field to a fresh string keeps the invariant, with the text
    of that field replaced. *)
Lemma record_inv_set h conf t σ c f vp bs :
  record_inv h conf t σ -> h !! conf = Some (Config c) -> h !! vp = None ->
  record_inv (<[conf := Config (set_field f (Some vp) c)]> (<[vp := Chars bs]> h))
    conf t (fun g => if bool_decide (f = g) then Some (c_str bs) else σ g).
Proof.
  intros (c' & Hc' & Ht & Hf & Hd) Hc Hvp.
  assert (c' = c) as -> by congruence.
  assert (conf <> vp) by congruence.
  assert (Hlive : forall g l, get_field g c = Some l ->
            exists b, h !! l = Some (Chars b)).
  { intros g l Hg. destruct (field_holds_cases _ _ _ (Hf g)) as [E|(l' & b & E & Hl)];
      rewrite Hg in E; [done|]. injection E as ->. by exists b. }
  exists (set_field f (Some vp) c). repeat split.
  - apply lookup_insert_eq.
  - by rewrite timeout_set_field.
  - intros g. case_bool_decide as Hfg.
    + subst g. rewrite get_set_field_eq. simpl.
      rewrite lookup_insert_ne by done. by rewrite lookup_insert_eq.
    + rewrite get_set_field_ne by done.
      eapply field_holds_frame; [|apply Hf].
      intros l b Hl. rewrite !lookup_insert_ne; [done | congruence | congruence].
  - intros g1 g2 Hne.
    destruct (decide (f = g1)) as [<-|H1], (decide (f = g2)) as [<-|H2]; try done.
    + rewrite get_set_field_eq, get_set_field_ne by done. intros E.
      symmetry in E. destruct (Hlive _ _ E) as [b Hb]. congruence.
    + rewrite get_set_field_eq, get_set_field_ne by done. intros E.
      destruct (Hlive _ _ E) as [b Hb]. congruence.
    + rewrite !get_set_field_ne by done. by apply Hd.
Qed.

Lemma c_str_value_text l sep : c_str (value_text l sep ++ [NUL]) = value_text l sep.
Proof.
  unfold value_text. rewrite <- (stripped_c_str (drop _ _)) at 1.
  rewrite c_str_app_nul; [apply stripped_c_str | apply c_str_nonul | done].
Qed.

(** ** [ph_cleanup_config] *)

Lemma free_field_run h p o w s :
  heap s = h -> field_holds h p o ->
  free p w s = Ret tt (set_heap (if p is Some l then delete l h else h) s).
Proof.
  intros <- Hp. destruct (field_holds_cases _ _ _ Hp) as [->|(l & bs & -> & Hl)].
  - unfold free, set_heap. by destruct s.
  - by rewrite (free_live _ _ _ _ Hl).
Qed.

(** On a record under the invariant the cleanup runs to its end and the
    record is gone. *)
Lemma ph_cleanup_config_run conf t σ w s :
  record_inv (heap s) conf t σ ->
  exists s', ph_cleanup_config (Some conf) w s = Ret tt s' /\
    heap s' !! conf = None /\ conf_out s' = conf_out s /\ nallocs s' = nallocs s.
Proof.
  intros (c & Hc & _ & Hf & Hd). unfold ph_cleanup_config.
  unfold bind at 1. rewrite (load_config_live _ _ _ _ Hc).
  assert (Hlive : forall g, get_field g c = None \/
            exists l bs, get_field g c = Some l /\ heap s !! l = Some (Chars bs) /\
                         l <> conf).
  { intros g. destruct (field_holds_cases _ _ _ (Hf g)) as [E|(l & b & E & Hl)];
      [by left|right]. exists l, b. repeat split; try done. congruence. }
  assert (Hsep : forall f g l, f <> g -> get_field f c = Some l ->
            get_field g c <> Some l).
  { intros f g l Hne Ef Eg. rewrite (Hd f g Hne) in Ef; congruence. }
  pose proof (Hlive f_uri) as Hu. pose proof (Hlive f_search_base) as Hs.
  pose proof (Hlive f_hostname) as Hh.
  pose proof (fun l => Hsep f_uri f_search_base l ltac:(done)) as Hus.
  pose proof (fun l => Hsep f_uri f_hostname l ltac:(done)) as Huh.
  pose proof (fun l => Hsep f_search_base f_hostname l ltac:(done)) as Hsh.
  simpl in Hu, Hs, Hh, Hus, Huh, Hsh. clear Hlive Hsep Hf Hd.
  unfold bind, free, set_heap.
  destruct Hu as [Eu|(lu & bu & Eu & Hlu & Hcu)];
    destruct Hs as [Es|(ls & bs & Es & Hls & Hcs)];
    destruct Hh as [Eh|(lh & bh & Eh & Hlh & Hch)];
    try (assert (lu <> ls) by (intros ->; by eapply Hus));
    try (assert (lu <> lh) by (intros ->; by eapply Huh));
    try (assert (ls <> lh) by (intros ->; by eapply Hsh));
    rewrite Eu, Es, Eh; state_simpl;
    repeat first
      [ rewrite Hc | rewrite Hlu | rewrite Hls | rewrite Hlh
      | rewrite lookup_delete_ne by (done || congruence)
      | progress state_simpl ];
    eexists; (split; [reflexivity|]); state_simpl;
    (split; [apply lookup_delete_eq | done]).
Qed.

(** ** The line loop *)

Lemma record_inv_ext h conf t σ σ' :
  (forall f, σ f = σ' f) -> record_inv h conf t σ -> record_inv h conf t σ'.
Proof.
  intros Heq (c & Hc & Ht & Hf & Hd). exists c. repeat split; try done.
  intros f. rewrite <- Heq. apply Hf.
Qed.

(** What one line does to a record under the invariant. *)
Lemma read_config_line_step line conf σ w s :
  record_inv (heap s) conf 0 σ ->
  match read_config_line line conf w s with
  | Fault =>
      is_comment line = false /\ malformed line = false /\
      malloc_ok w (nallocs s) = false
  | Ret r s' =>
      conf_out s' = conf_out s /\
      ((r = EAGAIN /\ s' = s /\ is_comment line = true) \/
       (r = EINVAL /\ s' = s /\ malformed line = true) \/
       (r = ENOMEM /\ record_inv (heap s') conf 0 σ /\
        malloc_ok w (S (nallocs s)) && malloc_ok w (S (S (nallocs s))) = false) \/
       (r = 0 /\ is_comment line = false /\ malformed line = false /\
        nallocs s' = (3 + nallocs s)%nat /\
        record_inv (heap s') conf 0 (fun f => file_setting f [line] (σ f))))
  end.
Proof.
  intros Hinv. pose proof Hinv as (c & Hc & _).
  pose proof (read_config_line_run line conf c w s Hc) as Hrun. cbv zeta in Hrun.
  unfold malformed, file_setting, line_setting.
  destruct (is_comment line) eqn:Hcom.
  { rewrite Hrun. split; [done|]. left. done. }
  destruct (strchr (skip_whitespace line) SEPARATOR) as [sep|] eqn:Hsep.
  2:{ rewrite Hrun. split; [done|]. right. left. done. }
  simpl.
  destruct (malloc_ok w (nallocs s)) eqn:Ha; [|by rewrite Hrun].
  destruct (malloc_ok w (S (nallocs s))) eqn:Hb,
           (malloc_ok w (S (S (nallocs s)))) eqn:Hd.
  - destruct Hrun as (vp & Hvp & ->). split; [done|]. do 3 right.
    repeat split; try done. state_simpl. unfold heap_after_line.
    destruct (key_field _) as [f|] eqn:Hk.
    + eapply record_inv_ext; [|by apply record_inv_set].
      intros g. simpl. by rewrite c_str_value_text.
    + done.
  - destruct Hrun as (kp & Hkp & ->). split; [done|]. right. right. left.
    repeat split; try done. by apply record_inv_alloc.
  - destruct Hrun as (vp & Hvp & ->). split; [done|]. right. right. left.
    repeat split; try done. by apply record_inv_alloc.
  - rewrite Hrun. split; [done|]. right. right. left. done.
Qed.

Lemma file_setting_cons f line lines acc :
  file_setting f (line :: lines) acc
  = file_setting f lines (file_setting f [line] acc).
Proof. done. Qed.

(** The loop over the lines of a file, from a record under the invariant:
    it ends with the texts of the file in the record, or stops at the first
    line that fails, with an error code that is neither success nor skip. *)
Lemma read_lines_run conf w lines : forall σ s,
  record_inv (heap s) conf 0 σ ->
  match read_lines lines conf w s with
  | Fault => True
  | Ret None s' =>
      conf_out s' = conf_out s /\
      forallb (fun line => negb (malformed line)) lines = true /\
      record_inv (heap s') conf 0 (fun f => file_setting f lines (σ f))
  | Ret (Some e) s' =>
      conf_out s' = conf_out s /\ (e = EINVAL \/ e = ENOMEM) /\
      exists σ', record_inv (heap s') conf 0 σ'
  end.
Proof.
  induction lines as [|line lines IH]; intros σ s Hinv; simpl.
  { unfold ret. done. }
  pose proof (read_config_line_step line conf σ w s Hinv) as Hstep.
  unfold bind at 1.
  destruct (read_config_line line conf w s) as [r s1|]; [|done].
  destruct Hstep as [Hout [(-> & -> & Hc)|[(-> & -> & Hm)|[(-> & Hi & _)|(-> & Hc & Hm & _ & Hi)]]]].
  - change (EAGAIN =? EAGAIN) with true. cbn iota.
    specialize (IH σ s Hinv).
    destruct (read_lines lines conf w s) as [[e|] s'|]; try done.
    destruct IH as (? & Hall & Hi). repeat split; try done.
    + unfold malformed at 1. by rewrite Hc.
    + eapply record_inv_ext; [|exact Hi]. intros f. simpl.
      unfold line_setting. by rewrite Hc.
  - change (EINVAL =? EAGAIN) with false. change (negb (EINVAL =? 0)) with true.
    cbn iota. unfold ret. repeat split; eauto.
  - change (ENOMEM =? EAGAIN) with false. change (negb (ENOMEM =? 0)) with true.
    cbn iota. unfold ret. repeat split; eauto.
  - change (0 =? EAGAIN) with false. change (negb (0 =? 0)) with false.
    cbn iota. specialize (IH _ s1 Hi).
    destruct (read_lines lines conf w s1) as [[e|] s'|]; try done.
    + destruct IH as (? & ? & ?). repeat split; try done. congruence.
    + destruct IH as (? & Hall & Hi'). repeat split; try done; [congruence|].
      by rewrite Hm.
Qed.

(** When no allocation fails the loop always returns: with [EINVAL] when
    some line is malformed, to its end otherwise. *)
Lemma read_lines_all_succeed conf w lines : forall σ s,
  all_allocations_succeed w ->
  record_inv (heap s) conf 0 σ ->
  exists s', read_lines lines conf w s =
    Ret (if existsb malformed lines then Some EINVAL else None) s'.
Proof.
  induction lines as [|line lines IH]; intros σ s Hok Hinv; simpl.
  { by eexists. }
  pose proof (read_config_line_step line conf σ w s Hinv) as Hstep.
  unfold bind at 1.
  destruct (read_config_line line conf w s) as [r s1|].
  2:{ destruct Hstep as (_ & _ & Hf). by rewrite Hok in Hf. }
  destruct Hstep as [Hout [(-> & -> & Hc)|[(-> & -> & Hm)|[(-> & _ & Hf)|(-> & Hc & Hm & _ & Hi)]]]].
  - change (EAGAIN =? EAGAIN) with true. cbn iota.
    unfold malformed at 1. rewrite Hc. simpl. by eapply IH.
  - rewrite Hm. simpl. by eexists.
  - by rewrite !Hok in Hf.
  - rewrite Hm. simpl. by eapply IH.
Qed.

(** ** [default_config] *)

Lemma set_field_same f c : get_field f c = None -> set_field f None c = c.
Proof. destruct f, c; simpl; by intros ->. Qed.

Lemma frame_refl conf h : frame conf h h.
Proof. by intros l b. Qed.

Lemma frame_trans conf h1 h2 h3 :
  frame conf h1 h2 -> frame conf h2 h3 -> frame conf h1 h3.
Proof. intros H12 H23 l b Hl Hb. eauto. Qed.

Lemma frame_fresh conf (h h' : gmap loc block) l :
  frame conf h h' -> is_Some (h' !! conf) -> h' !! l = None -> h !! l = None.
Proof.
  intros Hfr [c Hc] Hl. destruct (h !! l) as [b|] eqn:E; [|done].
  destruct (decide (l = conf)) as [->|Hne]; [congruence|].
  rewrite (Hfr _ _ Hne E) in Hl. done.
Qed.

Lemma frame_insert_conf conf h b : frame conf h (<[conf := b]> h).
Proof. intros l b' Hl Hb. by rewrite lookup_insert_ne. Qed.

Lemma frame_insert_fresh conf (h : gmap loc block) l b :
  h !! l = None -> frame conf h (<[l := b]> h).
Proof. intros Hl l' b' _ Hb. rewrite lookup_insert_ne; [done|congruence]. Qed.

(** The statement [if (conf->f == NULL) conf->f = strdup(D);] on a live
    record. *)
Lemma default_string_run f D conf c w s :
  heap s !! conf = Some (Config c) ->
  exists s' c',
    (if get_field f c is None
     then let* p := strdup D in modify_config conf (set_field f p)
     else ret tt) w s = Ret tt s' /\
    conf_out s' = conf_out s /\
    heap s' !! conf = Some (Config c') /\
    (forall g, g <> f -> get_field g c' = get_field g c) /\
    timeout c' = timeout c /\
    ((get_field f c' = None /\ get_field f c = None) \/
     defaulted (heap s) (heap s') (get_field f c) (get_field f c') D) /\
    frame conf (heap s) (heap s') /\
    (forall t σ, record_inv (heap s) conf t σ ->
                 exists σ', record_inv (heap s') conf t σ').
Proof.
  intros Hc. destruct (get_field f c) as [p|] eqn:Ef.
  { exists s, c. unfold ret. split_and!; try done.
    - by right.
    - apply frame_refl.
    - eauto. }
  unfold bind, strdup. destruct (malloc_ok w (nallocs s)) eqn:Hok.
  - rewrite alloc_succeeds by done.
    pose proof (fresh_lookup (heap s)) as Hl.
    set (l := fresh (dom (heap s))) in *. clearbody l.
    assert (conf <> l) by congruence.
    rewrite (modify_config_live conf c)
      by (state_simpl; by rewrite lookup_insert_ne).
    unfold set_heap. state_simpl.
    eexists _, (set_field f (Some l) c). split; [done|]. state_simpl.
    split_and!; [done| | | | | |].
    + apply lookup_insert_eq.
    + intros g Hg. by apply get_set_field_ne.
    + apply timeout_set_field.
    + right. rewrite get_set_field_eq. simpl. exists l. repeat split; try done.
      rewrite lookup_insert_ne by done. apply lookup_insert_eq.
    + eapply frame_trans; [by apply frame_insert_fresh | apply frame_insert_conf].
    + intros t σ Hinv. eexists. by apply record_inv_set.
  - rewrite alloc_fails by done.
    rewrite (modify_config_live conf c) by done.
    unfold set_heap. state_simpl. rewrite set_field_same by done.
    rewrite insert_id by done.
    eexists _, c. split; [done|]. state_simpl. split_and!; try done.
    + by left.
    + apply frame_refl.
    + eauto.
Qed.

(** The tail of [default_config]: the timeout, then [return conf]. *)
Lemma default_timeout_run conf c w s :
  heap s !! conf = Some (Config c) ->
  exists s' c',
    (let* c := load_config conf in
     (if timeout c =? 0
      then modify_config conf (set_timeout PAM_HBAC_DEFAULT_TIMEOUT)
      else ret tt);;;
     ret (Some conf)) w s = Ret (Some conf) s' /\
    conf_out s' = conf_out s /\
    heap s' = <[conf := Config c']> (heap s) /\
    (forall g, get_field g c' = get_field g c) /\
    timeout c' = (if timeout c =? 0 then PAM_HBAC_DEFAULT_TIMEOUT else timeout c).
Proof.
  intros Hc. unfold bind at 1. rewrite (load_config_live _ _ _ _ Hc).
  destruct (timeout c =? 0) eqn:Ht.
  - unfold bind. rewrite (modify_config_live _ _ _ _ _ Hc). unfold ret, set_heap.
    eexists _, _. split; [done|]. state_simpl. by split_and!.
  - unfold bind, ret. exists s, c. split_and!; try done.
    by rewrite insert_id.
Qed.

Lemma defaulted_forward conf (h0 h1 h2 : gmap loc block) p p1 p2 D :
  frame conf h0 h1 -> frame conf h1 h2 ->
  is_Some (h1 !! conf) -> (exists c, h2 !! conf = Some (Config c)) ->
  p1 = p ->
  defaulted h1 h2 p1 p2 D -> defaulted h0 h2 p p2 D.
Proof.
  intros H01 H12 Hc1 Hc2 -> Hd. unfold defaulted in *.
  destruct p; [done|]. destruct Hd as (l & -> & Hl & Hl').
  exists l. split_and!; try done. by eapply frame_fresh.
Qed.

Lemma defaulted_backward conf (h0 h1 h2 : gmap loc block) p p1 p2 D :
  frame conf h1 h2 -> (exists c, h1 !! conf = Some (Config c)) ->
  p1 <> None -> p2 = p1 ->
  defaulted h0 h1 p p1 D -> defaulted h0 h2 p p2 D.
Proof.
  intros H12 [c Hc] Hp1 -> Hd. unfold defaulted in *.
  destruct p; [done|]. destruct Hd as (l & -> & Hl & Hl').
  exists l. split_and!; try done. apply H12; [congruence | done].
Qed.

(** Every run of [default_config] on a live record either reaches the
    [fail] label, with a record the cleanup can release, or returns the
    record with every unset field filled. *)
Lemma default_config_outcome conf c w s :
  heap s !! conf = Some (Config c) -> (0 < HOST_NAME_MAX)%nat ->
  defaulting_outcome conf c w s (default_config conf w s).
Proof.
  intros Hc Hmax. unfold default_config. cbv zeta.
  unfold bind at 1. rewrite (load_config_live _ _ _ _ Hc).
  destruct (default_string_run f_uri PAM_HBAC_DEFAULT_URI conf c w s Hc)
    as (s1 & c1 & E1 & Ho1 & Hc1 & Hoth1 & Ht1 & Hd1 & Hfr1 & Hinv1).
  cbn [get_field] in Hd1.
  assert (E1' : (if uri c is None
                 then let* p := strdup PAM_HBAC_DEFAULT_URI in
                      modify_config conf (set_uri p)
                 else ret tt) w s = Ret tt s1) by exact E1.
  unfold bind at 1. rewrite E1'.
  unfold bind at 1. rewrite (load_config_live _ _ _ _ Hc1).
  destruct (default_string_run f_search_base PAM_HBAC_DEFAULT_SEARCH_BASE conf c1 w s1 Hc1)
    as (s2 & c2 & E2 & Ho2 & Hc2 & Hoth2 & Ht2 & Hd2 & Hfr2 & Hinv2).
  cbn [get_field] in Hd2.
  assert (E2' : (if search_base c1 is None
                 then let* p := strdup PAM_HBAC_DEFAULT_SEARCH_BASE in
                      modify_config conf (set_search_base p)
                 else ret tt) w s1 = Ret tt s2) by exact E2.
  unfold bind at 1. rewrite E2'.
  unfold bind at 1. rewrite (load_config_live _ _ _ _ Hc2).
  assert (Hinv12 : forall t σ, record_inv (heap s) conf t σ ->
            exists σ', record_inv (heap s2) conf t σ').
  { intros t σ Hi. destruct (Hinv1 _ _ Hi) as [σ1 Hi1]. eauto. }
  destruct (bool_decide (search_base c2 = None) || bool_decide (uri c2 = None)) eqn:Hchk.
  { left. exists s2. split_and!; [done | congruence | done]. }
  apply orb_false_iff in Hchk as [Hsb Huri].
  apply bool_decide_eq_false in Hsb, Huri.
  pose proof (Hoth1 f_search_base ltac:(done)) as Hsb1.
  pose proof (Hoth1 f_bind_dn ltac:(done)) as Hdn1.
  pose proof (Hoth1 f_bind_pw ltac:(done)) as Hpw1.
  pose proof (Hoth1 f_hostname ltac:(done)) as Hh1.
  pose proof (Hoth2 f_uri ltac:(done)) as Huri2.
  pose proof (Hoth2 f_bind_dn ltac:(done)) as Hdn2.
  pose proof (Hoth2 f_bind_pw ltac:(done)) as Hpw2.
  pose proof (Hoth2 f_hostname ltac:(done)) as Hh2.
  cbn [get_field] in *.
  destruct Hd1 as [[Hd1 _]|Hd1]; [congruence|].
  destruct Hd2 as [[Hd2 _]|Hd2]; [congruence|].
  assert (Huri_fin : defaulted (heap s) (heap s2) (uri c) (uri c2) PAM_HBAC_DEFAULT_URI).
  { eapply defaulted_backward; eauto. congruence. }
  assert (Hsb_fin : defaulted (heap s) (heap s2) (search_base c) (search_base c2)
                      PAM_HBAC_DEFAULT_SEARCH_BASE).
  { eapply (defaulted_forward conf (heap s) (heap s1)); eauto. }
  assert (Hfr12 : frame conf (heap s) (heap s2)) by (by eapply frame_trans).
  clear E1 E2 E1' E2' Hd1 Hd2 Hinv1 Hinv2 Hoth1 Hoth2.
  (* from here on the record is [c2] in state [s2] *)
  assert (Hfinish : forall s3 c3,
    heap s3 !! conf = Some (Config c3) -> conf_out s3 = conf_out s2 ->
    (forall g, g <> f_hostname -> get_field g c3 = get_field g c2) ->
    timeout c3 = timeout c2 ->
    frame conf (heap s2) (heap s3) ->
    hostname_filled (heap s2) (heap s3) (hostname c2) (hostname c3) HOST_NAME_MAX ->
    exists s' c',
      (let* c := load_config conf in
       (if timeout c =? 0
        then modify_config conf (set_timeout PAM_HBAC_DEFAULT_TIMEOUT)
        else ret tt);;;
       ret (Some conf)) w s3 = Ret (Some conf) s' /\
     conf_out s' = conf_out s /\
     defaulted_record conf c c' (heap s) (heap s')).
  { intros s3 c3 Hc3 Ho3 Hoth3 Ht3 Hfr3 Hhost.
    destruct (default_timeout_run conf c3 w s3 Hc3)
      as (s4 & c4 & E4 & Ho4 & Hh4 & Hf4 & Ht4).
    pose proof (Hoth3 f_uri ltac:(done)) as Hu3.
    pose proof (Hoth3 f_search_base ltac:(done)) as Hs3.
    pose proof (Hoth3 f_bind_dn ltac:(done)) as Hdn3.
    pose proof (Hoth3 f_bind_pw ltac:(done)) as Hpw3.
    pose proof (Hf4 f_uri) as Hu4. pose proof (Hf4 f_search_base) as Hs4.
    pose proof (Hf4 f_bind_dn) as Hdn4. pose proof (Hf4 f_bind_pw) as Hpw4.
    pose proof (Hf4 f_hostname) as Hh4'.
    cbn [get_field] in *.
    assert (Hfr34 : frame conf (heap s3) (heap s4)).
    { rewrite Hh4. apply frame_insert_conf. }
    assert (Hc4 : heap s4 !! conf = Some (Config c4)).
    { rewrite Hh4. apply lookup_insert_eq. }
    assert (Hfr24 : frame conf (heap s2) (heap s4)) by (by eapply frame_trans).
    exists s4, c4. unfold defaulted_record. split_and!; try congruence.
    - by rewrite Ht4, Ht3, Ht2, Ht1.
    - apply (defaulted_backward conf (heap s) (heap s2) (heap s4) (uri c) (uri c2));
        [done | eauto | done | congruence | done].
    - apply (defaulted_backward conf (heap s) (heap s2) (heap s4) (search_base c)
               (search_base c2)); [done | eauto | done | congruence | done].
    - unfold hostname_filled in *. rewrite <- Hh1, <- Hh2.
      destruct (hostname c2) as [q|]; [congruence|].
      destruct Hhost as (l & buf & Hl & Hn & Hb & Hlen & Hlast).
      exists l, buf. split_and!; try done; [congruence | |].
      + eapply frame_fresh; [exact Hfr12 | eauto | done].
      + apply Hfr34; [congruence | done].
    - by eapply frame_trans. }
  destruct (hostname c2) as [q|] eqn:Ehost.
  { right. destruct (Hfinish s2 c2) as (s' & c' & -> & Hrest); try done.
    - apply frame_refl.
    - by exists s', c'. }
  unfold bind at 1. unfold malloc.
  destruct (malloc_ok w (nallocs s2)) eqn:Hok.
  2:{ rewrite alloc_fails by done. unfold bind at 1.
      rewrite (modify_config_live conf c2) by done.
      unfold set_heap. state_simpl.
      left. eexists. split; [reflexivity|]. state_simpl.
      split; [congruence|]. intros t σ Hi.
      replace (set_hostname None c2) with c2
        by (symmetry; by apply (set_field_same f_hostname)).
      rewrite insert_id by done. eauto. }
  rewrite alloc_succeeds by done.
  pose proof (fresh_lookup (heap s2)) as Hhp.
  set (hp := fresh (dom (heap s2))) in *. clearbody hp.
  set (junk := map (malloc_junk w) (seq 0 HOST_NAME_MAX)).
  assert (Hjl : length junk = HOST_NAME_MAX)
    by (unfold junk; by rewrite length_map, length_seq).
  assert (conf <> hp) by congruence.
  unfold bind at 1.
  rewrite (modify_config_live conf c2) by (state_simpl; by rewrite lookup_insert_ne).
  unfold set_heap. state_simpl.
  unfold bind at 1, gethostname at 1.
  destruct (sys_gethostname w HOST_NAME_MAX) as [e|name].
  { unfold ret at 1. change (-1 =? -1) with true. cbn iota.
    left. eexists. split; [reflexivity|]. state_simpl.
    split; [congruence|]. intros t σ Hi.
    destruct (Hinv12 _ _ Hi) as [σ2 Hi2].
    eexists. by apply (record_inv_set _ _ _ σ2 c2 f_hostname). }
  unfold bind at 1.
  rewrite (load_chars_live hp junk)
    by (state_simpl; rewrite lookup_insert_ne by done; apply lookup_insert_eq).
  replace (length junk <? HOST_NAME_MAX)%nat with false
    by (symmetry; apply Nat.ltb_ge; lia).
  unfold bind at 1.
  rewrite (store_chars_live hp junk)
    by (state_simpl; rewrite lookup_insert_ne by done; apply lookup_insert_eq).
  unfold set_heap, ret at 1. state_simpl.
  change (0 =? -1) with false. cbn iota.
  set (buf := take HOST_NAME_MAX name ++ drop (length (take HOST_NAME_MAX name)) junk).
  assert (Hbl : length buf = HOST_NAME_MAX).
  { unfold buf. rewrite length_app, length_drop, !length_take. lia. }
  unfold bind at 1.
  replace (Z.of_nat HOST_NAME_MAX - 1) with (Z.of_nat (HOST_NAME_MAX - 1)) by lia.
  rewrite (poke_live hp buf)
    by (state_simpl; first [apply lookup_insert_eq | lia]).
  unfold set_heap. state_simpl. rewrite !insert_insert_eq.
  rewrite (insert_insert_ne _ hp conf) by done. rewrite !insert_insert_eq.
  right. apply (Hfinish _ (set_hostname (Some hp) c2)); state_simpl.
  - apply lookup_insert_eq.
  - done.
  - intros g Hg. by apply (get_set_field_ne f_hostname).
  - done.
  - eapply frame_trans; [|apply frame_insert_conf]. by apply frame_insert_fresh.
  - exists hp, (<[(HOST_NAME_MAX - 1)%nat := NUL]> buf). split_and!; try done.
    + rewrite lookup_insert_ne by done. apply lookup_insert_eq.
    + by rewrite length_insert.
    + apply list_lookup_insert_eq. lia.
Qed.

(** The [fail] label of [default_config] never hands a record back. *)
Lemma fail_never_succeeds conf w s1 (q : loc) s' :
  (ph_cleanup_config (Some conf);;; ret (@None loc)) w s1 <> Ret (Some q) s'.
Proof.
  unfold bind. destruct (ph_cleanup_config (Some conf) w s1); [|done].
  unfold ret. congruence.
Qed.

(** Under the invariant the [fail] label returns [NULL] with the record
    released. *)
Lemma fail_releases conf t σ w s1 :
  record_inv (heap s1) conf t σ ->
  exists s', (ph_cleanup_config (Some conf);;; ret (@None loc)) w s1 = Ret None s' /\
    heap s' !! conf = None /\ conf_out s' = conf_out s1.
Proof.
  intros Hi. destruct (ph_cleanup_config_run conf t σ w s1 Hi) as (s' & E & Hl & Ho & _).
  exists s'. unfold bind. by rewrite E.
Qed.

(** From a record under the invariant [default_config] always returns:
    [NULL] with the record released, or the record with its fields filled. *)
Lemma default_config_run conf c t σ w s :
  heap s !! conf = Some (Config c) -> record_inv (heap s) conf t σ ->
  (0 < HOST_NAME_MAX)%nat ->
  (exists s', default_config conf w s = Ret None s' /\
              heap s' !! conf = None /\ conf_out s' = conf_out s) \/
  (exists s' c', default_config conf w s = Ret (Some conf) s' /\
                 conf_out s' = conf_out s /\
                 defaulted_record conf c c' (heap s) (heap s')).
Proof.
  intros Hc Hi Hmax.
  destruct (default_config_outcome conf c w s Hc Hmax)
    as [(s1 & -> & Ho & Hinv)|(s' & c' & E & Ho & Hrec)].
  - left. destruct (Hinv _ _ Hi) as [σ' Hi'].
    destruct (fail_releases conf t σ' w s1 Hi') as (s' & E & Hl & Ho').
    exists s'. split_and!; [done | done | congruence].
  - right. by exists s', c'.
Qed.

(** ** [ph_read_config] *)

Lemma record_inv_calloc (h : gmap loc block) cl :
  record_inv (<[cl := Config zero_config]> h) cl 0 (fun _ => @None (list ascii)).
Proof.
  exists zero_config. split_and!; try done.
  - apply lookup_insert_eq.
  - by intros [].
  - by intros [] [].
Qed.

(** Every run of the loader, by the first thing that goes wrong in it. *)
Lemma ph_read_config_run path w s :
  let cl := fresh (dom (heap s)) in
  match sys_fopen w path with
  | inl errno => ph_read_config path w s = Ret (Zpos errno) s
  | inr contents =>
      if malloc_ok w (nallocs s) then
        match read_lines (file_lines contents) cl w (after_calloc s) with
        | Fault => ph_read_config path w s = Fault
        | Ret (Some e) s2 =>
            (e = EINVAL \/ e = ENOMEM) /\
            exists s', ph_read_config path w s = Ret e s' /\
                       conf_out s' = conf_out s /\ heap s' !! cl = None
        | Ret None s2 =>
            forallb (fun line => negb (malformed line)) (file_lines contents) = true /\
            exists c2,
              heap s2 !! cl = Some (Config c2) /\
              record_inv (heap s2) cl 0
                (fun f => file_setting f (file_lines contents) None) /\
              ((0 < HOST_NAME_MAX)%nat ->
               (exists s3, default_config cl w s2 = Ret None s3 /\
                           ph_read_config path w s = Ret ENOMEM s3 /\
                           conf_out s3 = conf_out s /\ heap s3 !! cl = None) \/
               (exists s3 c', default_config cl w s2 = Ret (Some cl) s3 /\
                              ph_read_config path w s =
                                Ret 0 (mk_state (heap s3) (nallocs s3) (Some cl)) /\
                              defaulted_record cl c2 c' (heap s2) (heap s3)))
        end
      else ph_read_config path w s =
             Ret ENOMEM (mk_state (heap s) (S (nallocs s)) (conf_out s))
  end.
Proof.
  intros cl. remember (ph_read_config path w s) as r eqn:Hr.
  unfold ph_read_config in Hr.
  destruct (sys_fopen w path) as [e|contents]; [done|].
  unfold bind at 1, calloc_config in Hr.
  destruct (malloc_ok w (nallocs s)) eqn:Hok.
  2:{ by rewrite alloc_fails in Hr. }
  rewrite alloc_succeeds in Hr by done.
  change (mk_state _ (S (nallocs s)) (conf_out s)) with (after_calloc s) in Hr.
  fold cl in Hr.
  pose proof (read_lines_run cl w (file_lines contents) (fun _ => None)
                (after_calloc s) (record_inv_calloc (heap s) cl)) as Hrun.
  unfold bind at 1 in Hr.
  destruct (read_lines (file_lines contents) cl w (after_calloc s))
    as [[e|] s2|]; [| |done].
  - destruct Hrun as (Ho & He & σ' & Hi). split; [done|]. simpl in Ho.
    destruct (ph_cleanup_config_run cl 0 σ' w s2 Hi) as (s' & E & Hl & Ho' & _).
    exists s'. split_and!; [|congruence|done].
    unfold bind in Hr.
    replace (negb (e =? 0)) with true in Hr by (by destruct He as [->| ->]).
    by rewrite E in Hr.
  - destruct Hrun as (Ho & Hall & Hi). split; [done|]. simpl in Ho.
    pose proof Hi as (c2 & Hc2 & _). exists c2. split_and!; try done.
    intros Hmax. unfold bind at 1 in Hr.
    destruct (default_config_run cl c2 0 _ w s2 Hc2 Hi Hmax)
      as [(s3 & E & Hl & Ho3)|(s3 & c' & E & Ho3 & Hrec)]; rewrite E in Hr.
    + left. exists s3. split_and!; try done. congruence.
    + right. by exists s3, c'.
Qed.

(** ** Lines by their shape *)

Lemma read_config_line_comment line conf w s :
  is_comment line = true -> read_config_line line conf w s = Ret EAGAIN s.
Proof. intros Hc. unfold read_config_line. fold (is_comment line). by rewrite Hc. Qed.

Lemma read_config_line_no_separator line conf w s :
  malformed line = true -> read_config_line line conf w s = Ret EINVAL s.
Proof.
  unfold malformed. intros [Hc Hs]%andb_true_iff.
  apply negb_true_iff in Hc. apply bool_decide_eq_true in Hs.
  unfold read_config_line. fold (is_comment line). rewrite Hc.
  unfold bind at 1, get_key_value. by rewrite Hs.
Qed.

Lemma is_comment_form ws rest :
  blank ws -> is_comment (ws ++ "#"%char :: rest) = true.
Proof.
  intros Hws. unfold is_comment. rewrite skip_whitespace_app; [done | done |].
  by intros c [= <-].
Qed.

Lemma blank_malformed line : blank line -> malformed line = true.
Proof.
  intros Hb. unfold malformed, is_comment. by rewrite skip_whitespace_blank.
Qed.

Lemma no_separator_malformed line :
  is_comment line = false -> SEPARATOR ∉ line -> malformed line = true.
Proof.
  intros Hc Hs. unfold malformed. rewrite Hc. simpl.
  apply bool_decide_eq_true, strchr_absent. intros Hin. apply Hs.
  destruct (skip_whitespace_suffix line) as [pre ->].
  apply elem_of_app. by right.
Qed.

(** A line whose text before the first separator is a key with whitespace
    around it: what the interpreter makes of it. *)
Lemma directive_form w1 key w2 rest :
  blank w1 -> blank w2 -> trimmed key ->
  SEPARATOR ∉ key -> head key <> Some "#"%char ->
  let line := w1 ++ key ++ w2 ++ SEPARATOR :: rest in
  is_comment line = false /\
  exists sep, strchr (skip_whitespace line) SEPARATOR = Some sep /\
              key_text (skip_whitespace line) sep = key /\
              value_text (skip_whitespace line) sep = stripped rest.
Proof.
  intros Hw1 Hw2 Hk Hsep Hhash line.
  assert (exists w2', blank w2' /\
            skip_whitespace line = key ++ w2' ++ SEPARATOR :: rest)
    as (w2' & Hw2' & Hl).
  { destruct key as [|k key].
    - exists []. split; [constructor|]. unfold line. simpl.
      rewrite app_assoc. apply skip_whitespace_app; [by apply Forall_app|].
      intros c [= <-]. done.
    - exists w2. split; [done|]. unfold line.
      apply skip_whitespace_app; [done|]. intros c [= <-].
      by apply (proj1 (proj2 Hk)). }
  split.
  - unfold is_comment. rewrite Hl. destruct key as [|k key]; simpl.
    + destruct w2' as [|c w2'']; simpl; [done|].
      apply Forall_cons in Hw2' as [Hc _].
      apply Ascii.eqb_neq. unfold char_at. simpl. intros ->. done.
    + apply Ascii.eqb_neq. unfold char_at. simpl. intros ->. done.
  - rewrite Hl. unfold key_text, value_text.
    destruct (tokenize_key key w2' rest) as (E1 & E2 & E3); try done.
    cbv zeta in E1, E2, E3. exists (length (key ++ w2')). by rewrite E3.
Qed.

Lemma key_field_match k f :
  (forall g h, strcasecmp (key_name g) (key_name h) = 0 -> g = h) ->
  strcasecmp k (key_name f) = 0 -> key_field k = Some f.
Proof.
  intros Hd Hk.
  assert (Hother : forall g, g <> f -> (strcasecmp k (key_name g) =? 0) = false).
  { intros g Hg. apply Z.eqb_neq. intros Hkg. apply Hg, Hd.
    rewrite strcasecmp_zero in *. congruence. }
  pose proof (Hother f_uri) as O1. pose proof (Hother f_bind_dn) as O2.
  pose proof (Hother f_bind_pw) as O3. pose proof (Hother f_search_base) as O4.
  unfold key_field. simpl in O1, O2, O3, O4.
  destruct f; simpl in Hk;
    rewrite ?O1, ?O2, ?O3, ?O4 by done; by rewrite Hk.
Qed.

Lemma key_field_no_match k :
  (forall f, strcasecmp k (key_name f) <> 0) -> key_field k = None.
Proof.
  intros Hk. unfold key_field.
  pose proof (Hk f_uri) as H1. pose proof (Hk f_bind_dn) as H2.
  pose proof (Hk f_bind_pw) as H3. pose proof (Hk f_search_base) as H4.
  pose proof (Hk f_hostname) as H5. simpl in *.
  apply Z.eqb_neq in H1, H2, H3, H4, H5. by rewrite H1, H2, H3, H4, H5.
Qed.

(** The setting a well-formed line stands for. *)
Lemma line_setting_form f w1 key w2 w3 value w4 :
  blank w1 -> blank w2 -> blank w3 -> blank w4 ->
  trimmed key -> trimmed value ->
  SEPARATOR ∉ key -> head key <> Some "#"%char ->
  (forall g h, strcasecmp (key_name g) (key_name h) = 0 -> g = h) ->
  strcasecmp key (key_name f) = 0 ->
  line_setting (w1 ++ key ++ w2 ++ SEPARATOR :: w3 ++ value ++ w4) = Some (f, value).
Proof.
  intros Hw1 Hw2 Hw3 Hw4 Hk Hv Hsep Hhash Hdist Hmatch.
  destruct (directive_form w1 key w2 (w3 ++ value ++ w4))
    as (Hcom & sep & Hs & Hkey & Hval); try done.
  unfold line_setting. rewrite Hcom, Hs, Hkey, Hval.
  rewrite (key_field_match key f) by done.
  rewrite <- (app_nil_r w4). by rewrite stripped_spec.
Qed.

(** With every allocation granted, a file with a malformed line fails to
    load, with [EINVAL]. *)
Lemma load_malformed path w s contents :
  all_allocations_succeed w ->
  sys_fopen w path = inr contents ->
  existsb malformed (file_lines contents) = true ->
  load_fails_cleanly path w s EINVAL.
Proof.
  intros Hok Hopen Hex. split; [done|].
  pose proof (ph_read_config_run path w s) as Hrun. cbv zeta in Hrun.
  rewrite Hopen, Hok in Hrun.
  destruct (read_lines_all_succeed (fresh (dom (heap s))) w (file_lines contents)
              (fun _ => None) (after_calloc s) Hok (record_inv_calloc _ _))
    as (s2 & E).
  rewrite Hex in E. rewrite E in Hrun. by destruct Hrun as (_ & Hrun).
Qed.

Lemma existsb_elem {A} (P : A -> bool) (l : list A) x :
  x ∈ l -> P x = true -> existsb P l = true.
Proof.
  intros Hx HP. apply existsb_exists. exists x. split; [|done].
  by apply list_elem_of_In.
Qed.

Lemma strlen_nul_bound buf : forall i,
  buf !! i = Some NUL -> (strlen buf <= i)%nat.
Proof.
  unfold strlen. induction buf as [|c buf IH]; intros i; [done|].
  destruct i as [|i]; simpl.
  - by intros [= ->].
  - intros Hi. destruct (is_nul c); simpl; [lia|]. apply IH in Hi. lia.
Qed.

(** A defaulted string field reads as the text the file gave it, or as
    the default. *)
Lemma defaulted_string_at conf (h h' : gmap loc block) c p p' D o :
  h !! conf = Some (Config c) -> frame conf h h' ->
  field_holds h p o -> defaulted h h' p p' D ->
  string_at h' p' = Some (default (c_str D) o).
Proof.
  intros Hc Hfr Hp Hd. destruct o as [t|]; simpl in *.
  - apply string_at_live in Hp as (l & bs & -> & Hl & <-).
    simpl in Hd. subst p'. simpl.
    rewrite (Hfr l (Chars bs)); [done | congruence | done].
  - subst p. simpl in Hd. destruct Hd as (l & -> & _ & Hl). simpl. rewrite Hl.
    f_equal. apply c_str_app_nul; [apply c_str_nonul | done].
Qed.

(** What a load that returns 0 went through. *)
Lemma ph_read_config_success path w s s' :
  (0 < HOST_NAME_MAX)%nat ->
  ph_read_config path w s = Ret 0 s' ->
  exists contents cl s2 c2 s3 c',
    sys_fopen w path = inr contents /\
    read_lines (file_lines contents) cl w (after_calloc s) = Ret None s2 /\
    heap s2 !! cl = Some (Config c2) /\
    record_inv (heap s2) cl 0 (fun f => file_setting f (file_lines contents) None) /\
    default_config cl w s2 = Ret (Some cl) s3 /\
    defaulted_record cl c2 c' (heap s2) (heap s3) /\
    s' = mk_state (heap s3) (nallocs s3) (Some cl).
Proof.
  intros Hmax Hret.
  pose proof (ph_read_config_run path w s) as Hrun. cbv zeta in Hrun.
  destruct (sys_fopen w path) as [e|contents]; [congruence|].
  destruct (malloc_ok w (nallocs s)); [|by rewrite Hrun in Hret].
  destruct (read_lines _ _ w (after_calloc s)) as [[e|] s2|] eqn:Hloop.
  - by destruct Hrun as ([-> | ->] & s'' & E & _); rewrite E in Hret.
  - destruct Hrun as (_ & c2 & Hc2 & Hi & Hdef).
    destruct (Hdef Hmax) as [(s3 & _ & E & _)|(s3 & c' & Ed & E & Hrec)];
      [by rewrite E in Hret|].
    exists contents, (fresh (dom (heap s))), s2, c2, s3, c'.
    split_and!; try done. congruence.
  - congruence.
Qed.

End Proofs.

(** * Properties of the specification *)

Section Claims.
Context `{Macros}.

(** C9.  A line whose first character after the leading whitespace is '#'
    is answered with [EAGAIN] and leaves the whole state, the record
    included, as it was; the loop of the loader then goes on with the next
    line as if the comment were not there. *)
Theorem comment_line_is_skipped ws rest lines conf w s :
  blank ws ->
  read_config_line (ws ++ "#"%char :: rest) conf w s = Ret EAGAIN s /\
  read_lines ((ws ++ "#"%char :: rest) :: lines) conf w s
  = read_lines lines conf w s.
Proof.
  intros Hws.
  pose proof (read_config_line_comment _ conf w s (is_comment_form ws rest Hws)) as E.
  split; [done|]. simpl. unfold bind at 1. by rewrite E.
Qed.

(** C1, as the code has it.  An empty or whitespace-only line has no
    separator: [read_config_line] answers [EINVAL], not the [EAGAIN] of a
    comment, touching nothing; and with every allocation granted a file
    that contains such a line fails to load with [EINVAL]. *)
Theorem blank_line_is_malformed line :
  blank line ->
  (forall conf w s, read_config_line line conf w s = Ret EINVAL s) /\
  (forall path w s contents,
     all_allocations_succeed w ->
     sys_fopen w path = inr contents ->
     line ∈ file_lines contents ->
     load_fails_cleanly path w s EINVAL).
Proof.
  intros Hb. pose proof (blank_malformed line Hb) as Hm. split.
  - intros conf w s. by apply read_config_line_no_separator.
  - intros path w s contents Hok Hopen Hin.
    eapply load_malformed; [done | done |]. by eapply existsb_elem.
Qed.

(** C5.  A line without '=' that is not a comment makes the tokenizer
    answer [EINVAL]; with every allocation granted, a file that contains
    such a line fails to load: the loader returns [EINVAL], the caller's
    variable is untouched and the record is released. *)
Theorem line_without_separator_fails_load path w s contents line :
  all_allocations_succeed w ->
  sys_fopen w path = inr contents ->
  line ∈ file_lines contents ->
  is_comment line = false ->
  SEPARATOR ∉ line ->
  (forall k v w' s',
     get_key_value (skip_whitespace line) k v w' s' = Ret (EINVAL, (k, v)) s') /\
  load_fails_cleanly path w s EINVAL.
Proof.
  intros Hok Hopen Hin Hc Hs.
  pose proof (no_separator_malformed line Hc Hs) as Hm. split.
  - intros k v w' s'. unfold get_key_value.
    unfold malformed in Hm. rewrite Hc in Hm. simpl in Hm.
    apply bool_decide_eq_true in Hm. by rewrite Hm.
  - eapply load_malformed; [done | done |]. by eapply existsb_elem.
Qed.

(** C8.  A line [key = ...] whose key, trimmed, compares unequal to every
    recognized name is accepted with 0 and leaves the heap exactly as it
    was: the record is unchanged and both strings the tokenizer allocated
    are released again. *)
Theorem unknown_key_is_ignored w1 key w2 rest conf c w s :
  blank w1 -> blank w2 -> trimmed key ->
  SEPARATOR ∉ key -> head key <> Some "#"%char ->
  (forall f, strcasecmp key (key_name f) <> 0) ->
  heap s !! conf = Some (Config c) ->
  malloc_ok w (nallocs s) = true ->
  malloc_ok w (S (nallocs s)) = true ->
  malloc_ok w (S (S (nallocs s))) = true ->
  read_config_line (w1 ++ key ++ w2 ++ SEPARATOR :: rest) conf w s
  = Ret 0 (mk_state (heap s) (3 + nallocs s) (conf_out s)).
Proof.
  intros Hw1 Hw2 Hk Hsep Hhash Hno Hc Ha Hb Hd.
  destruct (directive_form w1 key w2 rest) as (Hcom & sep & Hs & Hkey & Hval);
    try done.
  pose proof (read_config_line_run (w1 ++ key ++ w2 ++ SEPARATOR :: rest)
                conf c w s Hc) as Hrun.
  cbv zeta in Hrun.
  rewrite Hcom, Hs, Ha, Hb, Hd in Hrun. destruct Hrun as (vp & _ & ->).
  unfold heap_after_line. rewrite Hkey. by rewrite key_field_no_match.
Qed.

(** C4.  A line [key = value], with any amount of whitespace around the
    key and around the value, whose key compares equal without regard to
    case to the name of field [f]: the line is split at its first '=' (the
    key holds none, the value may) and the field is pointed to a fresh
    string that is exactly [value]; nothing else changes in the heap. *)
Theorem key_value_line_sets_field f w1 key w2 w3 value w4 conf c w s :
  blank w1 -> blank w2 -> blank w3 -> blank w4 ->
  trimmed key -> trimmed value ->
  SEPARATOR ∉ key -> head key <> Some "#"%char ->
  (forall g h, strcasecmp (key_name g) (key_name h) = 0 -> g = h) ->
  strcasecmp key (key_name f) = 0 ->
  heap s !! conf = Some (Config c) ->
  malloc_ok w (nallocs s) = true ->
  malloc_ok w (S (nallocs s)) = true ->
  malloc_ok w (S (S (nallocs s))) = true ->
  exists vp,
    heap s !! vp = None /\
    read_config_line (w1 ++ key ++ w2 ++ SEPARATOR :: w3 ++ value ++ w4) conf w s
    = Ret 0 (mk_state
               (<[conf := Config (set_field f (Some vp) c)]>
                  (<[vp := Chars (value ++ [NUL])]> (heap s)))
               (3 + nallocs s) (conf_out s)).
Proof.
  intros Hw1 Hw2 Hw3 Hw4 Hk Hv Hsep Hhash Hdist Hmatch Hc Ha Hb Hd.
  destruct (directive_form w1 key w2 (w3 ++ value ++ w4))
    as (Hcom & sep & Hs & Hkey & Hval); try done.
  assert (Hstrip : stripped (w3 ++ value ++ w4) = value).
  { rewrite <- (app_nil_r w4). by apply stripped_spec. }
  pose proof (read_config_line_run
                (w1 ++ key ++ w2 ++ SEPARATOR :: w3 ++ value ++ w4)
                conf c w s Hc) as Hrun.
  cbv zeta in Hrun.
  rewrite Hcom, Hs, Ha, Hb, Hd in Hrun. destruct Hrun as (vp & Hvp & ->).
  exists vp. split; [done|].
  unfold heap_after_line. rewrite Hkey, Hval, Hstrip.
  by rewrite (key_field_match key f).
Qed.

(** C2.  An allocation failure can make a load crash instead of fail:
    when the record is allocated and the next allocation is refused, and
    the first line of the file that is not a comment has a separator, the
    tokenizer writes through the copy of the line it could not allocate
    and the load does not return. *)
Theorem refused_line_copy_crashes_load path w s contents comments line rest sep :
  sys_fopen w path = inr contents ->
  file_lines contents = comments ++ line :: rest ->
  Forall (fun l => is_comment l = true) comments ->
  is_comment line = false ->
  strchr (skip_whitespace line) SEPARATOR = Some sep ->
  malloc_ok w (nallocs s) = true ->
  malloc_ok w (S (nallocs s)) = false ->
  ph_read_config path w s = Fault.
Proof.
  intros Hopen Hlines Hcom Hc Hs Hrec Hcopy.
  unfold ph_read_config. rewrite Hopen, Hlines.
  unfold bind at 1, calloc_config. rewrite alloc_succeeds by done.
  set (cl := fresh (dom (heap s))).
  match goal with |- bind (read_lines _ _) _ w ?s1 = _ =>
    assert (Hloop : read_lines (comments ++ line :: rest) cl w s1 = Fault)
  end.
  { clear Hlines.
    induction Hcom as [|l comments Hl _ IH]; simpl; unfold bind at 1.
    - unfold read_config_line. fold (is_comment line). rewrite Hc.
      unfold bind at 1. by rewrite (get_key_value_null_copy _ sep).
    - rewrite (read_config_line_comment l) by done. exact IH. }
  unfold bind at 1. by rewrite Hloop.
Qed.

(** C7.  When the defaulting pass succeeds on a record without a host
    name, the host name it leaves is a buffer of [HOST_NAME_MAX] bytes whose
    last byte is the terminator, whatever the lookup wrote: the string in
    it ends before the end of the buffer. *)
Theorem defaulted_hostname_is_terminated conf c w s q s' :
  heap s !! conf = Some (Config c) ->
  hostname c = None ->
  (0 < HOST_NAME_MAX)%nat ->
  default_config conf w s = Ret (Some q) s' ->
  exists c' hp buf,
    heap s' !! conf = Some (Config c') /\
    hostname c' = Some hp /\
    heap s' !! hp = Some (Chars buf) /\
    length buf = HOST_NAME_MAX /\
    buf !! (HOST_NAME_MAX - 1)%nat = Some NUL /\
    (strlen buf < HOST_NAME_MAX)%nat.
Proof.
  intros Hc Hh Hmax Hret.
  destruct (default_config_outcome conf c w s Hc Hmax)
    as [(s1 & E & _)|(s3 & c' & E & _ & Hrec)].
  { rewrite E in Hret. by apply fail_never_succeeds in Hret. }
  rewrite E in Hret. injection Hret as _ ->.
  destruct Hrec as (Hc' & _ & _ & _ & _ & _ & Hhost & _).
  unfold hostname_filled in Hhost. rewrite Hh in Hhost.
  destruct Hhost as (hp & buf & Hp & _ & Hbuf & Hlen & Hlast).
  exists c', hp, buf. split_and!; try done.
  apply strlen_nul_bound in Hlast. lia.
Qed.

(** C10.  No line changes the timeout: after the loop over any lines, from
    the zeroed record, it is still 0; and after a load that returned 0 the
    record in the caller's variable has the compile-time default timeout. *)
Theorem loaded_timeout_is_default path w s :
  (forall lines conf σ s1 s2,
     record_inv (heap s1) conf 0 σ ->
     read_lines lines conf w s1 = Ret None s2 ->
     exists c, heap s2 !! conf = Some (Config c) /\ timeout c = 0) /\
  (forall s',
     (0 < HOST_NAME_MAX)%nat ->
     ph_read_config path w s = Ret 0 s' ->
     exists conf c',
       conf_out s' = Some conf /\
       heap s' !! conf = Some (Config c') /\
       timeout c' = PAM_HBAC_DEFAULT_TIMEOUT).
Proof.
  split.
  - intros lines conf σ s1 s2 Hi Hloop.
    pose proof (read_lines_run conf w lines σ s1 Hi) as Hrun.
    rewrite Hloop in Hrun. destruct Hrun as (_ & _ & c & Hc & Ht & _). eauto.
  - intros s' Hmax Hret.
    destruct (ph_read_config_success path w s s' Hmax Hret)
      as (contents & cl & s2 & c2 & s3 & c' & _ & _ & Hc2 & Hi & _ & Hrec & ->).
    destruct Hrec as (Hc' & Ht & _).
    destruct Hi as (c2' & Hc2' & Ht2 & _).
    assert (c2' = c2) as -> by congruence.
    exists cl, c'. state_simpl. split_and!; try done.
    by rewrite Ht, Ht2.
Qed.

End Claims.

(** * Concrete runs *)

Lemma example_keys_distinct :
  forall g h, strcasecmp (@key_name example_macros g) (@key_name example_macros h) = 0 ->
              g = h.
Proof. by intros [] [] Hk; vm_compute in Hk. Qed.

Lemma record_state_live : heap record_state !! 0%nat = Some (Config zero_config).
Proof. reflexivity. Qed.

Lemma example_allocations : all_allocations_succeed (example_world example_file).
Proof. by intros n. Qed.

Lemma comment_line_is_skipped_witness :
  @read_config_line example_macros (str "  " ++ "#"%char :: str " comment" ++ nl)
    0%nat (example_world []) record_state
  = Ret EAGAIN record_state /\
  @read_lines example_macros
    ((str "  " ++ "#"%char :: str " comment" ++ nl) :: [str "ldap_uri=x" ++ nl])
    0%nat (example_world []) record_state
  = @read_lines example_macros [str "ldap_uri=x" ++ nl]
      0%nat (example_world []) record_state.
Proof.
  apply (@comment_line_is_skipped example_macros (str "  ")). blank_tac.
Defined.

(** C1, as stated, fails: the empty line (a lone newline) is answered with
    [EINVAL] where a comment is answered with [EAGAIN], and a file that
    starts with an empty line does not load. *)
Lemma blank_line_not_skipped :
  @read_config_line example_macros nl 0%nat (example_world []) record_state
  = Ret EINVAL record_state /\
  @read_config_line example_macros (str "# comment" ++ nl) 0%nat
    (example_world []) record_state
  = Ret EAGAIN record_state /\
  EINVAL <> EAGAIN /\
  @ph_read_config example_macros [] (example_world (nl ++ example_file)) empty_state
  = Ret EINVAL (mk_state ∅ 1 None).
Proof. split_and!; [by vm_compute | by vm_compute | done | by vm_compute]. Qed.

Lemma blank_line_is_malformed_witness :
  @read_config_line example_macros (str " " ++ nl) 0%nat (example_world []) record_state
  = Ret EINVAL record_state /\
  @load_fails_cleanly example_macros []
    (example_world (str " " ++ nl ++ example_file)) empty_state EINVAL.
Proof.
  destruct (@blank_line_is_malformed example_macros (str " " ++ nl)) as [Hline Hload].
  { blank_tac. }
  split; [apply Hline|].
  apply (Hload [] _ empty_state (str " " ++ nl ++ example_file)).
  - by intros n.
  - reflexivity.
  - vm_compute. apply list_elem_of_here.
Defined.

Lemma line_without_separator_fails_load_witness :
  get_key_value (skip_whitespace (str "ldap_uri ldap://x" ++ nl)) None None
    (example_world []) record_state
  = Ret (EINVAL, (None, None)) record_state /\
  @load_fails_cleanly example_macros []
    (example_world (str "ldap_uri ldap://x" ++ nl)) empty_state EINVAL.
Proof.
  destruct (@line_without_separator_fails_load example_macros []
              (example_world (str "ldap_uri ldap://x" ++ nl)) empty_state
              (str "ldap_uri ldap://x" ++ nl) (str "ldap_uri ldap://x" ++ nl))
    as [Htok Hload].
  - by intros n.
  - reflexivity.
  - vm_compute. apply list_elem_of_here.
  - reflexivity.
  - absent_tac.
  - split; [apply Htok | exact Hload].
Defined.

Lemma unknown_key_is_ignored_witness :
  @read_config_line example_macros
    ([] ++ str "bogus_key" ++ [] ++ SEPARATOR :: str "value" ++ nl)
    0%nat (example_world []) record_state
  = Ret 0 (mk_state (heap record_state) 3 None).
Proof.
  apply (@unknown_key_is_ignored example_macros [] (str "bogus_key") []
           (str "value" ++ nl) 0%nat zero_config (example_world []) record_state);
    try reflexivity.
  - blank_tac.
  - blank_tac.
  - trimmed_tac.
  - absent_tac.
  - discriminate.
  - by intros [] Hk; vm_compute in Hk.
Defined.

Lemma key_value_line_sets_field_witness :
  exists vp,
    heap record_state !! vp = None /\
    @read_config_line example_macros
      (str "  " ++ str "LDAP_Uri" ++ str " " ++ SEPARATOR ::
       str "  " ++ str "ldap://host/?a=b" ++ str " " ++ nl)
      0%nat (example_world []) record_state
    = Ret 0 (mk_state
               (<[0%nat := Config (set_field f_uri (Some vp) zero_config)]>
                  (<[vp := Chars (str "ldap://host/?a=b" ++ [NUL])]>
                     (heap record_state)))
               3 None).
Proof.
  apply (@key_value_line_sets_field example_macros f_uri (str "  ") (str "LDAP_Uri")
           (str " ") (str "  ") (str "ldap://host/?a=b") (str " " ++ nl)
           0%nat zero_config (example_world []) record_state);
    try reflexivity.
  - blank_tac.
  - blank_tac.
  - blank_tac.
  - blank_tac.
  - trimmed_tac.
  - trimmed_tac.
  - absent_tac.
  - discriminate.
  - apply example_keys_distinct.
Defined.

Lemma defaulted_hostname_is_terminated_witness :
  exists c' hp buf,
    heap example_defaulted_state !! 0%nat = Some (Config c') /\
    hostname c' = Some hp /\
    heap example_defaulted_state !! hp = Some (Chars buf) /\
    length buf = @HOST_NAME_MAX example_macros /\
    buf !! (@HOST_NAME_MAX example_macros - 1)%nat = Some NUL /\
    (strlen buf < @HOST_NAME_MAX example_macros)%nat.
Proof.
  apply (@defaulted_hostname_is_terminated example_macros 0%nat zero_config
           (example_world []) record_state 0%nat example_defaulted_state).
  - reflexivity.
  - reflexivity.
  - simpl. lia.
  - by vm_compute.
Defined.

Lemma loaded_timeout_is_default_witness :
  exists conf c',
    conf_out example_loaded_state = Some conf /\
    heap example_loaded_state !! conf = Some (Config c') /\
    timeout c' = @PAM_HBAC_DEFAULT_TIMEOUT example_macros.
Proof.
  apply (proj2 (@loaded_timeout_is_default example_macros []
                  (example_world example_file) empty_state)).
  - simpl. lia.
  - by vm_compute.
Defined.

(** C3, on the code.  When exactly one of the two copies cannot be
    allocated, [get_key_value] returns [ENOMEM] and hands nothing back,
    but the copy that was allocated stays live: the value ["x"] when the
    key fails, the key ["ldap_uri"] when the value fails.  The caller frees
    only what it was handed, so the block is still there when
    [read_config_line] returns, with no pointer to it anywhere. *)
Theorem partial_allocation_failure_leaks :
  let w_key := example_world_with (fun n => negb (n =? 1)%nat) [] in
  let w_value := example_world_with (fun n => negb (n =? 2)%nat) [] in
  let line := str "ldap_uri = x" ++ nl in
  let leak text := mk_state (<[2%nat := Chars (str text ++ [NUL])]> (heap record_state)) 3 None in
  get_key_value line None None w_key record_state
  = Ret (ENOMEM, (None, None)) (leak "x") /\
  get_key_value line None None w_value record_state
  = Ret (ENOMEM, (None, None)) (leak "ldap_uri") /\
  @read_config_line example_macros line 0%nat w_key record_state
  = Ret ENOMEM (leak "x") /\
  @read_config_line example_macros line 0%nat w_value record_state
  = Ret ENOMEM (leak "ldap_uri") /\
  heap record_state !! 2%nat = None.
Proof. split_and!; by vm_compute. Qed.

(** * Further properties of the parser *)

(** ** [strip] on any buffer *)

Lemma c_str_tail s : exists tail, s = c_str s ++ tail /\ c_str tail = [].
Proof.
  induction s as [|c s (tail & Hs & Ht)]; simpl.
  - by exists [].
  - destruct (is_nul c) eqn:Hc.
    + exists (c :: s). split; [done|]. simpl. by rewrite Hc.
    + exists tail. split; [|done]. simpl. by rewrite <- Hs.
Qed.

Lemma leading_split t :
  exists w r, t = w ++ r /\ blank w /\ (forall c, head r = Some c -> isspace c = false).
Proof.
  induction t as [|c t (w & r & -> & Hw & Hr)].
  - exists [], []. split_and!; [done | constructor | done].
  - destruct (isspace c) eqn:Hc.
    + exists (c :: w), r. split_and!; [done | by constructor | done].
    + exists [], (c :: w ++ r). split_and!; [done | constructor |].
      by intros ? [= <-].
Qed.

Lemma trailing_split r :
  exists x w', r = x ++ w' /\ blank w' /\ (forall c, last x = Some c -> isspace c = false).
Proof.
  induction r as [|c r (x & w' & -> & Hw & Hx)] using rev_ind.
  - exists [], []. split_and!; [done | constructor | done].
  - destruct (isspace c) eqn:Hc.
    + exists x, (w' ++ [c]). split_and!; [by rewrite app_assoc | | done].
      apply Forall_app. split; [done|]. by constructor.
    + exists ((x ++ w') ++ [c]), []. split_and!; [by rewrite app_nil_r | constructor |].
      intros c'. rewrite last_snoc. by intros [= <-].
Qed.

(** Every C string is whitespace, a trimmed text, whitespace. *)
Lemma trim_split t :
  Forall (fun c => is_nul c = false) t ->
  exists w x w', t = w ++ x ++ w' /\ blank w /\ blank w' /\ trimmed x.
Proof.
  intros Hnul. destruct (leading_split t) as (w & r & -> & Hw & Hr).
  destruct (trailing_split r) as (x & w' & -> & Hw' & Hx).
  exists w, x, w'. split_and!; try done.
  apply Forall_app in Hnul as [_ Hnul]. apply Forall_app in Hnul as [Hnul _].
  split_and!; try done.
  intros c Hc. apply Hr. destruct x; [done | exact Hc].
Qed.

(** X1.  On every buffer [strip] returns a string without whitespace at
    either end, and that string is what is left of the C string in the
    buffer once the whitespace at its two ends is taken away; the pointer
    returned is past the leading whitespace, not further. *)
Theorem strip_returns_trimmed s :
  trimmed (stripped s) /\
  exists w w', blank w /\ blank w' /\
               c_str s = w ++ stripped s ++ w' /\ (strip s).1 = length w.
Proof.
  destruct (c_str_tail s) as (tail & Hs & Htail).
  destruct (trim_split (c_str s) (c_str_nonul s)) as (w & x & w' & Ht & Hw & Hw' & Hx).
  assert (Hstr : stripped s = x).
  { rewrite Hs, Ht, <- !app_assoc. by apply stripped_spec. }
  rewrite Hstr. split; [done|].
  assert (Hstart : (strip s).1 = skip_leading ((w ++ x ++ w') ++ tail)).
  { rewrite <- Ht, <- Hs. done. }
  rewrite Hstart, Ht. clear Hstart Hs Hstr Ht.
  destruct (decide (x = [])) as [->|Hne].
  - exists (w ++ w'), []. split_and!.
    + by apply Forall_app.
    + constructor.
    + by rewrite app_nil_r.
    + simpl. apply skip_leading_app; [by apply Forall_app|].
      intros c Hc. destruct tail as [|c' tail]; [done|].
      injection Hc as ->. simpl in Htail.
      destruct (is_nul c) eqn:Hn; [|done].
      apply is_nul_true in Hn as ->. done.
  - exists w, w'. split_and!; try done.
    rewrite <- !app_assoc. apply skip_leading_app; [done|].
    intros c Hc. apply (proj1 (proj2 Hx)). by destruct x.
Qed.

(** The trailing loop writes terminators only, and only at offsets above
    [start] and not above [end]. *)
Lemma trim_trailing_writes n : forall buf start end_,
  0 <= start ->
  let r := trim_trailing n buf start end_ in
  length r = length buf /\
  forall i : nat,
    (Z.of_nat i <= start \/ end_ < Z.of_nat i -> r !! i = buf !! i) /\
    (r !! i = buf !! i \/ r !! i = Some NUL).
Proof.
  induction n as [|n IH]; intros buf start end_ Hstart; simpl.
  { split; [done|]. intros i. split; [done | by left]. }
  destruct (end_ >? start) eqn:Hgt; simpl; [|split; [done|]; intros i; split; [done | by left]].
  destruct (isspace _); [|split; [done|]; intros i; split; [done | by left]].
  apply Z.gtb_lt in Hgt.
  destruct (IH (<[Z.to_nat end_ := NUL]> buf) start (end_ - 1) Hstart) as [Hlen Hi].
  split; [by rewrite Hlen, length_insert|].
  intros i. destruct (Hi i) as [Hout Hval]. split.
  - intros Hrange. rewrite Hout by lia. apply list_lookup_insert_ne. lia.
  - destruct (decide (i = Z.to_nat end_)) as [->|Hne].
    + destruct Hval as [Hval|Hval]; [|by right].
      rewrite Hval.
      destruct (decide (Z.to_nat end_ < length buf)%nat).
      * right. by apply list_lookup_insert_eq.
      * left. by rewrite list_insert_ge by lia.
    + by rewrite list_lookup_insert_ne in Hval by done.
Qed.

(** X2.  The writes of [strip] stay inside the string it is given: the
    buffer keeps its length, every byte up to and including the one the
    returned pointer points to, and every byte from the terminator on, is
    as it was, and a byte that changed has become a terminator. *)
Theorem strip_writes_inside_string s (i : nat) :
  length (strip s).2 = length s /\
  ((i <= (strip s).1)%nat \/ (strlen s <= i)%nat -> (strip s).2 !! i = s !! i) /\
  ((strip s).2 !! i = s !! i \/ (strip s).2 !! i = Some NUL).
Proof.
  unfold strip. cbn [fst snd].
  destruct (trim_trailing_writes
              (Z.to_nat (Z.of_nat (strlen s) - 1 - Z.of_nat (skip_leading s)))
              s (Z.of_nat (skip_leading s)) (Z.of_nat (strlen s) - 1))
    as [Hlen Hi]; [lia|].
  destruct (Hi i) as [Hout Hval]. split_and!; try done.
  intros Hrange. apply Hout. lia.
Qed.

(** ** The lines the loader reads *)

Lemma fgets_spec n : forall rest line rest',
  fgets n rest = (line, rest') ->
  rest = line ++ rest' /\ (length line <= n)%nat /\
  (rest <> [] -> (0 < n)%nat -> line <> []) /\
  (forall pre c, line = pre ++ [c] -> newline ∉ pre) /\
  (newline ∉ line -> rest' = [] \/ length line = n).
Proof.
  induction n as [|n IH]; intros rest line rest'; simpl.
  { intros [= <- <-]. split_and!; try done;
      [intros _ ?; lia | intros pre c Hp; by destruct pre | by right]. }
  destruct rest as [|c rest].
  { intros [= <- <-]. split_and!; try done;
      [simpl; lia | intros pre c Hp; by destruct pre | by left]. }
  destruct (Ascii.eqb_spec c newline) as [->|Hc].
  - intros [= <- <-]. split_and!; try done; [simpl; lia| |].
    + intros pre c Hp. destruct pre as [|p pre]; [apply not_elem_of_nil|].
      injection Hp as _ Hp. by destruct pre.
    + intros Hn. exfalso. apply Hn. apply list_elem_of_here.
  - destruct (fgets n rest) as [l r] eqn:E. intros Heq.
    apply Ascii.eqb_neq in Hc. fold newline in Heq. rewrite Hc in Heq.
    injection Heq as <- <-. apply Ascii.eqb_neq in Hc.
    destruct (IH _ _ _ E) as (-> & Hlen & _ & Hnl & Hfull).
    split_and!; try done; [simpl; lia| |].
    + intros pre c' Hp. destruct pre as [|p pre].
      * apply not_elem_of_nil.
      * injection Hp as <- ->. apply not_elem_of_cons. split; [done|]. by eapply Hnl.
    + intros Hn. apply not_elem_of_cons in Hn as [_ Hn].
      destruct (Hfull Hn) as [?|?]; [by left | right; simpl; lia].
Qed.

Lemma fgets_lines_spec fuel : forall rest,
  (length rest <= fuel)%nat ->
  concat (fgets_lines fuel rest) = rest /\
  Forall (fun line =>
            line <> [] /\ (length line <= MAX_LINE - 1)%nat /\
            (forall pre c, line = pre ++ [c] -> newline ∉ pre))
         (fgets_lines fuel rest).
Proof.
  induction fuel as [|fuel IH]; intros rest Hlen.
  { destruct rest; [|simpl in Hlen; lia]. split; [done | constructor]. }
  destruct rest as [|c rest]; [split; [done | constructor]|].
  cbn [fgets_lines].
  destruct (fgets (MAX_LINE - 1) (c :: rest)) as [line rest'] eqn:E.
  destruct (fgets_spec _ _ _ _ E) as (Hsplit & Hl & Hne & Hnl & _).
  assert (line <> []) as Hline by (apply Hne; [done | unfold MAX_LINE; lia]).
  assert (length rest' <= fuel)%nat as Hrest.
  { apply (f_equal length) in Hsplit. rewrite length_app in Hsplit.
    simpl in Hsplit, Hlen. destruct line; [done|]. simpl in Hsplit. lia. }
  destruct (IH rest' Hrest) as [Hcat Hall].
  split.
  - simpl. by rewrite Hcat.
  - by constructor.
Qed.

(** X3.  The line buffers the loader hands to [read_config_line] are the
    file cut into pieces, in order and with no byte lost; no piece is empty
    or longer than [MAX_LINE - 1] bytes, and a newline can only be the last
    byte of a piece. *)
Theorem file_lines_cut_the_file contents :
  concat (file_lines contents) = contents /\
  Forall (fun line =>
            line <> [] /\ (length line <= MAX_LINE - 1)%nat /\
            (forall pre c, line = pre ++ [c] -> newline ∉ pre))
         (file_lines contents).
Proof. by apply fgets_lines_spec. Qed.

(** ** The code against the file format of the specification *)

Lemma spec_trim_left_app w r :
  blank w -> (forall c, head r = Some c -> isspace c = false) ->
  spec_trim_left (w ++ r) = r.
Proof.
  intros Hw Hr. induction Hw as [|c w Hc _ IH]; simpl.
  - destruct r as [|c r]; [done|]. simpl. by rewrite (Hr c eq_refl).
  - by rewrite Hc.
Qed.

Lemma spec_trim_left_blank w : blank w -> spec_trim_left w = [].
Proof. induction 1 as [|c w Hc _ IH]; simpl; [done|]. by rewrite Hc. Qed.

(** Trimming keeps the text between the whitespace at the two ends. *)
Lemma spec_trim_form w x w' :
  blank w -> blank w' -> trimmed x -> spec_trim (w ++ x ++ w') = x.
Proof.
  intros Hw Hw' (_ & Hhd & Hlast). unfold spec_trim.
  destruct (decide (x = [])) as [->|Hx].
  - simpl. by rewrite (spec_trim_left_blank (w ++ w')) by (by apply Forall_app).
  - rewrite spec_trim_left_app; [|done|].
    2:{ intros c Hc. apply Hhd. by destruct x. }
    rewrite reverse_app, spec_trim_left_app.
    + apply reverse_involutive.
    + by apply Forall_reverse.
    + intros c. rewrite head_reverse. apply Hlast.
Qed.

(** What [strip] returns is the C string it was given, trimmed. *)
Lemma stripped_spec_trim s : stripped s = spec_trim (c_str s).
Proof.
  destruct (c_str_tail s) as (tail & Hs & Htail).
  destruct (trim_split (c_str s) (c_str_nonul s)) as (w & x & w' & Ht & Hw & Hw' & Hx).
  assert (Hstr : stripped s = x).
  { rewrite Hs, Ht, <- !app_assoc. by apply stripped_spec. }
  rewrite Hstr, Ht. symmetry. by apply spec_trim_form.
Qed.

Lemma c_str_skip_whitespace line :
  c_str (skip_whitespace line) = spec_trim_left (c_str line).
Proof.
  induction line as [|c line IH]; [done|].
  destruct (is_nul c) eqn:Hn.
  - apply is_nul_true in Hn as ->. done.
  - simpl. rewrite Hn. simpl. destruct (isspace c); [done|].
    simpl. by rewrite Hn.
Qed.

Lemma is_comment_spec line :
  is_comment line
  = bool_decide (head (c_str (skip_whitespace line)) = Some "#"%char).
Proof.
  unfold is_comment. destruct (skip_whitespace line) as [|c l]; [done|].
  unfold char_at. simpl.
  destruct (Ascii.eqb_spec c "#") as [->|Hne]; [done|].
  symmetry. apply bool_decide_eq_false.
  destruct (is_nul c); simpl; [done|]. by intros [= ->].
Qed.

Lemma spec_split_app pre post :
  Forall (fun x => Ascii.eqb x SEPARATOR = false) pre ->
  spec_split (pre ++ SEPARATOR :: post) = Some (pre, post).
Proof.
  induction 1 as [|c pre Hc _ IH]; simpl; [done|]. by rewrite Hc, IH.
Qed.

Lemma spec_split_none l :
  strchr l SEPARATOR = None -> spec_split (c_str l) = None.
Proof.
  induction l as [|c l IH]; simpl; [done|].
  destruct (Ascii.eqb c SEPARATOR) eqn:Hc; [done|].
  destruct (is_nul c); [done|]. simpl. rewrite Hc.
  destruct (strchr l SEPARATOR); [done|]. intros _. by rewrite IH.
Qed.

Section Format.
Context `{Macros}.

Lemma key_field_spec k : key_field k = spec_key_field k.
Proof. reflexivity. Qed.

(** The two strings the tokenizer copies out are the two sides of the
    first separator, trimmed. *)
Lemma tokens_spec l sep :
  strchr l SEPARATOR = Some sep ->
  exists k v,
    spec_split (c_str l) = Some (k, v) /\
    key_text l sep = spec_trim k /\ value_text l sep = spec_trim v.
Proof.
  intros Hs.
  destruct (strchr_split _ _ _ Hs) as (pre & post & Hl & Hlen & Hnul & Hsep).
  assert (Hc : c_str l = pre ++ SEPARATOR :: c_str post)
    by (rewrite Hl; by apply c_str_split).
  exists pre, (c_str post). split_and!.
  - rewrite Hc. by apply spec_split_app.
  - unfold key_text. rewrite stripped_spec_trim. f_equal.
    rewrite Hc, <- app_assoc. simpl.
    rewrite insert_app_r_alt by lia.
    rewrite <- Hlen, Nat.sub_diag. simpl.
    by apply c_str_app_nul.
  - unfold value_text. rewrite stripped_spec_trim. f_equal. f_equal.
    rewrite Hl.
    replace (pre ++ SEPARATOR :: post) with ((pre ++ [SEPARATOR]) ++ post)
      by (by rewrite <- app_assoc).
    apply drop_app_length'. rewrite length_app. simpl. lia.
Qed.

(** The interpreter reads a line as the specification does. *)
Lemma line_setting_spec line : line_setting line = spec_directive line.
Proof.
  unfold line_setting, spec_directive. cbv zeta.
  rewrite is_comment_spec, <- c_str_skip_whitespace.
  destruct (bool_decide (head (c_str (skip_whitespace line)) = Some "#"%char));
    [done|].
  destruct (strchr (skip_whitespace line) SEPARATOR) as [sep|] eqn:Hs.
  - destruct (tokens_spec _ _ Hs) as (k & v & -> & -> & ->).
    by rewrite key_field_spec.
  - by rewrite spec_split_none.
Qed.

Lemma file_setting_spec_from f lines : forall acc,
  file_setting f lines acc = from_option Some acc (spec_file_value f lines).
Proof.
  unfold spec_file_value.
  induction lines as [|line lines IH]; intros acc; simpl; [done|].
  rewrite IH, line_setting_spec.
  destruct (spec_directive line) as [[g v]|]; [|done].
  destruct (bool_decide (g = f)); [|done].
  rewrite last_cons. by destruct (last _).
Qed.

(** The loop over the lines leaves in a field what the specification says
    the file gives it. *)
Lemma file_setting_spec f lines :
  file_setting f lines None = spec_file_value f lines.
Proof. rewrite file_setting_spec_from. by destruct (spec_file_value f lines). Qed.

(** C6.  After a load that returned 0 the caller's variable points to a
    live record whose [uri] and [search_base] read as the file's values:
    for each of the two, the trimmed value of the last line of the file
    whose trimmed key names the field, as the specification defines the
    lines of the file, and the compile-time default when no line of the
    file does. *)
Theorem loaded_uri_and_search_base path w s s' :
  (0 < HOST_NAME_MAX)%nat ->
  ph_read_config path w s = Ret 0 s' ->
  exists contents conf c',
    sys_fopen w path = inr contents /\
    conf_out s' = Some conf /\
    heap s' !! conf = Some (Config c') /\
    string_at (heap s') (uri c')
    = Some (default (c_str PAM_HBAC_DEFAULT_URI)
              (spec_file_value f_uri (file_lines contents))) /\
    string_at (heap s') (search_base c')
    = Some (default (c_str PAM_HBAC_DEFAULT_SEARCH_BASE)
              (spec_file_value f_search_base (file_lines contents))).
Proof.
  intros Hmax Hret.
  destruct (ph_read_config_success path w s s' Hmax Hret)
    as (contents & cl & s2 & c2 & s3 & c' & Hopen & _ & Hc2 & Hi & _ & Hrec & ->).
  destruct Hrec as (Hc' & _ & _ & _ & Hu & Hs & _ & Hfr).
  destruct Hi as (c2' & Hc2' & _ & Hf & _).
  assert (c2' = c2) as -> by congruence.
  exists contents, cl, c'. state_simpl. split_and!; try done.
  - rewrite <- file_setting_spec.
    apply (defaulted_string_at cl (heap s2) (heap s3) c2 (uri c2));
      [done | done | apply (Hf f_uri) | done].
  - rewrite <- file_setting_spec.
    apply (defaulted_string_at cl (heap s2) (heap s3) c2 (search_base c2));
      [done | done | apply (Hf f_search_base) | done].
Qed.

End Format.

Section Further.
Context `{Macros}.

(** ** The tokenizer and the line interpreter *)

(** X4.  The copy of the line is written through without a check: when a
    line that is not a comment and has a separator is tokenized and the
    allocation of the copy fails, [read_config_line] faults, and so does the
    loop of the loader at that line. *)
Theorem line_copy_failure_faults line lines conf sep w s :
  is_comment line = false ->
  strchr (skip_whitespace line) SEPARATOR = Some sep ->
  malloc_ok w (nallocs s) = false ->
  read_config_line line conf w s = Fault /\
  read_lines (line :: lines) conf w s = Fault.
Proof.
  intros Hc Hs Ha.
  assert (E : read_config_line line conf w s = Fault).
  { unfold read_config_line. fold (is_comment line). rewrite Hc.
    unfold bind at 1. by rewrite (get_key_value_null_copy _ sep). }
  split; [done|]. simpl. unfold bind at 1. by rewrite E.
Qed.

(** X5.  When [get_key_value] returns 0 the heap has grown by exactly two
    blocks, the key and the value, which are distinct and hold the two
    texts; the copy of the line it worked on is gone again.  When both
    copies fail it returns [ENOMEM] with the heap as it was. *)
Theorem get_key_value_accounts l sep k0 v0 w s :
  strchr l SEPARATOR = Some sep ->
  malloc_ok w (nallocs s) = true ->
  (malloc_ok w (S (nallocs s)) = true ->
   malloc_ok w (S (S (nallocs s))) = true ->
   exists kp vp,
     kp <> vp /\ heap s !! kp = None /\ heap s !! vp = None /\
     get_key_value l k0 v0 w s
     = Ret (0, (Some kp, Some vp))
         (mk_state (<[vp := Chars (value_text l sep ++ [NUL])]>
                      (<[kp := Chars (key_text l sep ++ [NUL])]> (heap s)))
                   (3 + nallocs s) (conf_out s))) /\
  (malloc_ok w (S (nallocs s)) = false ->
   malloc_ok w (S (S (nallocs s))) = false ->
   get_key_value l k0 v0 w s
   = Ret (ENOMEM, (k0, v0)) (mk_state (heap s) (3 + nallocs s) (conf_out s))).
Proof.
  intros Hs Ha.
  pose proof (get_key_value_run l sep k0 v0 w s Hs Ha) as Hrun. cbv zeta in Hrun.
  split; intros Hb Hc; by rewrite Hb, Hc in Hrun.
Qed.

(** X6.  A line that sets a field which already points to a string makes
    the field point to the new string and leaves the old one allocated:
    the old block is still live after the call and the field no longer
    leads to it. *)
Theorem repeated_key_keeps_old_string line sep f conf c p bs w s :
  is_comment line = false ->
  strchr (skip_whitespace line) SEPARATOR = Some sep ->
  key_field (key_text (skip_whitespace line) sep) = Some f ->
  heap s !! conf = Some (Config c) ->
  get_field f c = Some p ->
  heap s !! p = Some (Chars bs) ->
  malloc_ok w (nallocs s) = true ->
  malloc_ok w (S (nallocs s)) = true ->
  malloc_ok w (S (S (nallocs s))) = true ->
  exists vp s',
    read_config_line line conf w s = Ret 0 s' /\
    heap s' !! conf = Some (Config (set_field f (Some vp) c)) /\
    vp <> p /\
    heap s' !! vp
    = Some (Chars (value_text (skip_whitespace line) sep ++ [NUL])) /\
    heap s' !! p = Some (Chars bs).
Proof.
  intros Hcom Hs Hk Hc Hf Hp Ha Hb Hd.
  pose proof (read_config_line_run line conf c w s Hc) as Hrun. cbv zeta in Hrun.
  rewrite Hcom, Hs, Ha, Hb, Hd in Hrun. destruct Hrun as (vp & Hvp & Hrun).
  unfold heap_after_line in Hrun. rewrite Hk in Hrun.
  assert (vp <> p) by congruence. assert (conf <> p) by congruence.
  assert (conf <> vp) by congruence.
  eexists vp, _. split; [exact Hrun|]. state_simpl. split_and!.
  - apply lookup_insert_eq.
  - done.
  - rewrite lookup_insert_ne by done. apply lookup_insert_eq.
  - by rewrite !lookup_insert_ne.
Qed.

(** ** [ph_cleanup_config] *)

(** What the cleanup leaves of the heap. *)
Lemma ph_cleanup_config_exact conf c t σ w s :
  record_inv (heap s) conf t σ ->
  heap s !! conf = Some (Config c) ->
  exists s',
    ph_cleanup_config (Some conf) w s = Ret tt s' /\
    nallocs s' = nallocs s /\ conf_out s' = conf_out s /\
    forall l,
       heap s' !! l
       = if bool_decide (l = conf \/ uri c = Some l \/ search_base c = Some l \/
                         hostname c = Some l)
         then None else heap s !! l.
Proof.
  intros Hinv Hc. pose proof Hinv as (c' & Hc' & _ & Hf & Hd).
  assert (c' = c) as -> by congruence. clear Hc'.
  assert (Hlive : forall g, get_field g c = None \/
            exists l bs, get_field g c = Some l /\ heap s !! l = Some (Chars bs) /\
                         l <> conf).
  { intros g. destruct (field_holds_cases _ _ _ (Hf g)) as [E|(l & b & E & Hl)];
      [by left|right]. exists l, b. repeat split; try done. congruence. }
  assert (Hsep : forall f g l, f <> g -> get_field f c = Some l ->
            get_field g c <> Some l).
  { intros f g l Hne Ef Eg. rewrite (Hd f g Hne) in Ef; congruence. }
  unfold ph_cleanup_config.
  unfold bind at 1. rewrite (load_config_live _ _ _ _ Hc).
  pose proof (Hlive f_uri) as Hu. pose proof (Hlive f_search_base) as Hs.
  pose proof (Hlive f_hostname) as Hh.
  pose proof (fun l => Hsep f_uri f_search_base l ltac:(done)) as Hus.
  pose proof (fun l => Hsep f_uri f_hostname l ltac:(done)) as Huh.
  pose proof (fun l => Hsep f_search_base f_hostname l ltac:(done)) as Hsh.
  simpl in Hu, Hs, Hh, Hus, Huh, Hsh.
  unfold bind, free, set_heap.
  destruct Hu as [Eu|(lu & bu & Eu & Hlu & Hcu)];
    destruct Hs as [Es|(ls & bs & Es & Hls & Hcs)];
    destruct Hh as [Eh|(lh & bh & Eh & Hlh & Hch)];
    try (assert (lu <> ls) by (intros ->; by eapply Hus));
    try (assert (lu <> lh) by (intros ->; by eapply Huh));
    try (assert (ls <> lh) by (intros ->; by eapply Hsh));
    rewrite Eu, Es, Eh; state_simpl;
    repeat first
      [ rewrite Hc | rewrite Hlu | rewrite Hls | rewrite Hlh
      | rewrite lookup_delete_ne by (done || congruence)
      | progress state_simpl ];
    eexists; (split; [reflexivity|]); state_simpl;
    (split; [done|]); (split; [done|]);
    intros l; rewrite ?lookup_delete;
    repeat case_decide; case_bool_decide; subst;
    intuition (try congruence).
Qed.

(** X7.  On a live record whose strings are live and separate, the
    cleanup releases the record and the strings of [uri], [search_base] and
    [hostname] and nothing else: every other block is as it was, the
    strings of [bind_dn] and [bind_pw] among them, which stay allocated.
    A second cleanup of the same pointer faults. *)
Theorem cleanup_releases_four_blocks conf c t σ w s :
  record_inv (heap s) conf t σ ->
  heap s !! conf = Some (Config c) ->
  exists s',
    ph_cleanup_config (Some conf) w s = Ret tt s' /\
    nallocs s' = nallocs s /\ conf_out s' = conf_out s /\
    (forall l,
       heap s' !! l
       = if bool_decide (l = conf \/ uri c = Some l \/ search_base c = Some l \/
                         hostname c = Some l)
         then None else heap s !! l) /\
    (forall p, bind_dn c = Some p \/ bind_pw c = Some p ->
               heap s' !! p = heap s !! p /\ is_Some (heap s !! p)) /\
    (forall w', ph_cleanup_config (Some conf) w' s' = Fault).
Proof.
  intros Hinv Hc.
  destruct (ph_cleanup_config_exact conf c t σ w s Hinv Hc)
    as (s' & Hrun & Hn & Ho & Hl).
  pose proof Hinv as (c' & Hc' & _ & Hf & Hd).
  assert (c' = c) as -> by congruence. clear Hc'.
  assert (Hlive : forall g, get_field g c = None \/
            exists l bs, get_field g c = Some l /\ heap s !! l = Some (Chars bs) /\
                         l <> conf).
  { intros g. destruct (field_holds_cases _ _ _ (Hf g)) as [E|(l & b & E & Hlv)];
      [by left|right]. exists l, b. repeat split; try done. congruence. }
  assert (Hsep : forall f g l, f <> g -> get_field f c = Some l ->
            get_field g c <> Some l).
  { intros f g l Hne Ef Eg. rewrite (Hd f g Hne) in Ef; congruence. }
  exists s'. split_and!; try done.
  - intros p Hp. rewrite Hl.
    assert (exists g, (g = f_bind_dn \/ g = f_bind_pw) /\ get_field g c = Some p)
      as (g & Hg & Egp).
    { destruct Hp; [exists f_bind_dn | exists f_bind_pw]; auto. }
    destruct (Hlive g) as [E|(l & b & E & Hlv & Hlc)]; [congruence|].
    assert (l = p) as -> by congruence.
    split; [|by eexists].
    rewrite bool_decide_eq_false_2; [done|].
    intros [->|[Hx|[Hx|Hx]]]; [done| | |].
    + eapply (Hsep f_uri g); [|exact Hx|done]. by destruct Hg as [-> | ->].
    + eapply (Hsep f_search_base g); [|exact Hx|done]. by destruct Hg as [-> | ->].
    + eapply (Hsep f_hostname g); [|exact Hx|done]. by destruct Hg as [-> | ->].
  - intros w'. unfold ph_cleanup_config, bind, load_config.
    rewrite Hl. by rewrite bool_decide_eq_true_2 by (by left).
Qed.

(** ** [default_config] *)

(** X8.  On a record whose [uri], [search_base] and [hostname] are set
    the defaulting pass allocates nothing and looks nothing up: it
    returns the record with the three fields, [bind_dn] and [bind_pw]
    untouched, and the only change is that a timeout of 0 becomes the
    default; a timeout that is not 0 is kept. *)
Theorem default_config_on_set_record conf c u b h w s :
  heap s !! conf = Some (Config c) ->
  uri c = Some u -> search_base c = Some b -> hostname c = Some h ->
  default_config conf w s
  = Ret (Some conf)
      (set_heap
         (<[conf := Config (set_timeout
                              (if timeout c =? 0 then PAM_HBAC_DEFAULT_TIMEOUT
                               else timeout c) c)]> (heap s)) s).
Proof.
  intros Hc Hu Hb Hh. unfold default_config. cbv zeta.
  unfold bind at 1. rewrite (load_config_live _ _ _ _ Hc), Hu.
  unfold bind at 1, ret at 1.
  unfold bind at 1. rewrite (load_config_live _ _ _ _ Hc), Hb.
  unfold bind at 1, ret at 1.
  unfold bind at 1. rewrite (load_config_live _ _ _ _ Hc), Hu, Hb, Hh.
  rewrite !bool_decide_eq_false_2 by done. cbn [orb].
  unfold bind at 1. rewrite (load_config_live _ _ _ _ Hc).
  destruct (timeout c =? 0) eqn:Ht.
  - unfold bind. by rewrite (modify_config_live _ _ _ _ _ Hc).
  - unfold bind, ret, set_heap.
    replace (set_timeout (timeout c) c) with c by (by destruct c).
    rewrite insert_id by done. by destruct s.
Qed.

Lemma default_string_granted f D conf c w s :
  all_allocations_succeed w ->
  heap s !! conf = Some (Config c) ->
  exists s' c',
    (if get_field f c is None
     then let* p := strdup D in modify_config conf (set_field f p)
     else ret tt) w s = Ret tt s' /\
    heap s' !! conf = Some (Config c') /\
    get_field f c' <> None /\
    (forall g, g <> f -> get_field g c' = get_field g c) /\
    timeout c' = timeout c.
Proof.
  intros Hok Hc. destruct (get_field f c) as [p|] eqn:Ef.
  { exists s, c. unfold ret. split_and!; try done. by rewrite Ef. }
  unfold bind, strdup. rewrite alloc_succeeds by apply Hok.
  pose proof (fresh_lookup (heap s)) as Hl.
  set (l := fresh (dom (heap s))) in *. clearbody l.
  assert (conf <> l) by congruence.
  rewrite (modify_config_live conf c)
    by (state_simpl; by rewrite lookup_insert_ne).
  unfold set_heap. state_simpl.
  eexists _, (set_field f (Some l) c). split; [done|]. state_simpl.
  split_and!.
  - apply lookup_insert_eq.
  - by rewrite get_set_field_eq.
  - intros g Hg. by apply get_set_field_ne.
  - apply timeout_set_field.
Qed.

(** The buffer [default_config] leaves for the host name when the lookup
    wrote [name]. *)
Lemma default_config_granted conf c w s :
  all_allocations_succeed w ->
  heap s !! conf = Some (Config c) ->
  (0 < HOST_NAME_MAX)%nat ->
  match hostname c with
  | Some _ => exists s', default_config conf w s = Ret (Some conf) s'
  | None =>
      match sys_gethostname w HOST_NAME_MAX with
      | inl _ =>
          exists s1, default_config conf w s
                     = (ph_cleanup_config (Some conf);;; ret None) w s1
      | inr name =>
          exists s' c' hp,
            default_config conf w s = Ret (Some conf) s' /\
            heap s' !! conf = Some (Config c') /\
            hostname c' = Some hp /\
            heap s' !! hp
            = Some (Chars (<[(HOST_NAME_MAX - 1)%nat := NUL]>
                             (take HOST_NAME_MAX name ++
                              drop (length (take HOST_NAME_MAX name))
                                (map (malloc_junk w) (seq 0 HOST_NAME_MAX)))))
      end
  end.
Proof.
  intros Hok Hc Hmax. remember (default_config conf w s) as r eqn:Hr.
  unfold default_config in Hr. cbv zeta in Hr.
  unfold bind at 1 in Hr. rewrite (load_config_live _ _ _ _ Hc) in Hr.
  destruct (default_string_granted f_uri PAM_HBAC_DEFAULT_URI conf c w s Hok Hc)
    as (s1 & c1 & E1 & Hc1 & Hu1 & Hoth1 & _).
  assert (E1' : (if uri c is None
                 then let* p := strdup PAM_HBAC_DEFAULT_URI in
                      modify_config conf (set_uri p)
                 else ret tt) w s = Ret tt s1) by exact E1.
  unfold bind at 1 in Hr. rewrite E1' in Hr.
  unfold bind at 1 in Hr. rewrite (load_config_live _ _ _ _ Hc1) in Hr.
  destruct (default_string_granted f_search_base PAM_HBAC_DEFAULT_SEARCH_BASE
              conf c1 w s1 Hok Hc1)
    as (s2 & c2 & E2 & Hc2 & Hb2 & Hoth2 & _).
  assert (E2' : (if search_base c1 is None
                 then let* p := strdup PAM_HBAC_DEFAULT_SEARCH_BASE in
                      modify_config conf (set_search_base p)
                 else ret tt) w s1 = Ret tt s2) by exact E2.
  unfold bind at 1 in Hr. rewrite E2' in Hr.
  unfold bind at 1 in Hr. rewrite (load_config_live _ _ _ _ Hc2) in Hr.
  pose proof (Hoth1 f_hostname ltac:(done)) as Hh1.
  pose proof (Hoth2 f_hostname ltac:(done)) as Hh2.
  pose proof (Hoth2 f_uri ltac:(done)) as Hu2.
  cbn [get_field] in *.
  rewrite !bool_decide_eq_false_2 in Hr by congruence. cbn [orb] in Hr.
  rewrite Hh2, Hh1 in Hr. clear E1 E1' E2 E2'.
  destruct (hostname c) as [q|] eqn:Ehost.
  { destruct (default_timeout_run conf c2 w s2 Hc2) as (s' & c' & E & _).
    exists s'. by rewrite Hr. }
  unfold bind at 1, malloc in Hr. rewrite alloc_succeeds in Hr by apply Hok.
  pose proof (fresh_lookup (heap s2)) as Hhp.
  set (hp := fresh (dom (heap s2))) in *. clearbody hp.
  set (junk := map (malloc_junk w) (seq 0 HOST_NAME_MAX)) in *.
  assert (Hjl : length junk = HOST_NAME_MAX)
    by (unfold junk; by rewrite length_map, length_seq).
  assert (conf <> hp) by congruence.
  unfold bind at 1 in Hr.
  rewrite (modify_config_live conf c2) in Hr
    by (state_simpl; by rewrite lookup_insert_ne).
  unfold set_heap in Hr. state_simpl.
  unfold bind at 1, gethostname at 1 in Hr.
  destruct (sys_gethostname w HOST_NAME_MAX) as [e|name].
  { unfold ret at 1 in Hr. change (-1 =? -1) with true in Hr. cbn iota in Hr.
    eexists. exact Hr. }
  unfold bind at 1 in Hr. cbn [heap nallocs conf_out] in Hr.
  rewrite (load_chars_live hp junk) in Hr
    by (state_simpl; rewrite lookup_insert_ne by done; apply lookup_insert_eq).
  replace (length junk <? HOST_NAME_MAX)%nat with false in Hr
    by (symmetry; apply Nat.ltb_ge; lia).
  unfold bind at 1 in Hr.
  rewrite (store_chars_live hp junk) in Hr
    by (state_simpl; rewrite lookup_insert_ne by done; apply lookup_insert_eq).
  unfold set_heap, ret at 1 in Hr. cbn [heap nallocs conf_out] in Hr.
  change (0 =? -1) with false in Hr. cbn iota in Hr.
  set (buf := take HOST_NAME_MAX name ++ drop (length (take HOST_NAME_MAX name)) junk) in *.
  assert (Hbl : length buf = HOST_NAME_MAX).
  { unfold buf. rewrite length_app, length_drop, !length_take. lia. }
  unfold bind at 1 in Hr.
  replace (Z.of_nat HOST_NAME_MAX - 1) with (Z.of_nat (HOST_NAME_MAX - 1)) in Hr by lia.
  rewrite (poke_live hp buf) in Hr
    by (state_simpl; first [apply lookup_insert_eq | lia]).
  unfold set_heap in Hr. cbn [heap nallocs conf_out] in Hr.
  rewrite !insert_insert_eq in Hr.
  rewrite (insert_insert_ne _ hp conf) in Hr by done.
  rewrite !insert_insert_eq in Hr.
  match type of Hr with _ = _ _ ?s3 =>
    destruct (default_timeout_run conf (set_hostname (Some hp) c2) w s3)
      as (s' & c' & E & _ & Hheap & Hf & _)
  end.
  { state_simpl. apply lookup_insert_eq. }
  rewrite E in Hr. exists s', c', hp. split_and!; try done.
  - rewrite Hheap. apply lookup_insert_eq.
  - exact (Hf f_hostname).
  - rewrite Hheap. state_simpl. rewrite insert_insert_eq.
    rewrite lookup_insert_ne by done. apply lookup_insert_eq.
Qed.

Lemma c_str_app_at_nul a b : c_str (a ++ NUL :: b) = c_str a.
Proof.
  induction a as [|c a IH]; simpl; [done|].
  destruct (is_nul c); [done|]. by rewrite IH.
Qed.

Lemma c_str_insert_nul buf k :
  (k < length buf)%nat -> c_str (<[k := NUL]> buf) = c_str (take k buf).
Proof.
  intros Hk. rewrite <- (take_drop k buf) at 1.
  rewrite insert_app_r_alt by (rewrite length_take; lia).
  rewrite length_take, Nat.min_l, Nat.sub_diag by lia.
  destruct (drop k buf) as [|x rest] eqn:E.
  { apply (f_equal length) in E. rewrite length_drop in E. simpl in E. lia. }
  simpl. apply c_str_app_at_nul.
Qed.

Lemma c_str_app_with_nul a b : NUL ∈ a -> c_str (a ++ b) = c_str a.
Proof.
  intros Hin. apply list_elem_of_split in Hin as (a1 & a2 & ->).
  by rewrite <- app_assoc, <- app_comm_cons, !c_str_app_at_nul.
Qed.

(** X9.  When every allocation succeeds and the lookup writes [name], a
    record without a host name gets one from the defaulting pass: the
    first [HOST_NAME_MAX - 1] bytes of what the lookup wrote, up to their
    first terminator.  A name that fills the buffer is cut at
    [HOST_NAME_MAX - 1] bytes. *)
Theorem defaulted_hostname_is_lookup_cut conf c w s name :
  all_allocations_succeed w ->
  heap s !! conf = Some (Config c) ->
  hostname c = None ->
  (0 < HOST_NAME_MAX)%nat ->
  sys_gethostname w HOST_NAME_MAX = inr name ->
  (HOST_NAME_MAX - 1 <= length name)%nat \/ NUL ∈ name ->
  exists s' c',
    default_config conf w s = Ret (Some conf) s' /\
    heap s' !! conf = Some (Config c') /\
    string_at (heap s') (hostname c')
    = Some (c_str (take (HOST_NAME_MAX - 1) name)).
Proof.
  intros Hok Hc Hh Hmax Hname Hlen.
  pose proof (default_config_granted conf c w s Hok Hc Hmax) as Hrun.
  rewrite Hh, Hname in Hrun. destruct Hrun as (s' & c' & hp & E & Hc' & Hhp & Hbuf).
  exists s', c'. split_and!; try done.
  rewrite Hhp. simpl. rewrite Hbuf. f_equal.
  set (junk := map (malloc_junk w) (seq 0 HOST_NAME_MAX)).
  assert (Hjl : length junk = HOST_NAME_MAX)
    by (unfold junk; by rewrite length_map, length_seq).
  rewrite c_str_insert_nul
    by (rewrite length_app, length_drop, !length_take; lia).
  destruct (decide (HOST_NAME_MAX - 1 <= length name)%nat) as [Hle|Hgt].
  - rewrite take_app_le by (rewrite length_take; lia).
    rewrite take_take. f_equal. f_equal. lia.
  - destruct Hlen as [?|Hnul]; [lia|].
    rewrite (take_ge name) by lia.
    rewrite (take_ge name (HOST_NAME_MAX - 1)) by lia.
    rewrite take_app_ge by lia.
    by apply c_str_app_with_nul.
Qed.

(** ** [ph_read_config] *)

(** X10.  When the file opens and no allocation fails the loader always
    returns, and what it returns is decided by the file and the lookup
    alone: [EINVAL] when some line is malformed; otherwise [ENOMEM], not
    the error of the lookup, when no line sets the host name and the
    lookup fails; otherwise 0.  With an error the caller's variable is
    untouched and the record is released. *)
Theorem load_outcome_when_memory_suffices path w s contents :
  all_allocations_succeed w ->
  sys_fopen w path = inr contents ->
  (0 < HOST_NAME_MAX)%nat ->
  let rc :=
    if existsb malformed (file_lines contents) then EINVAL
    else match file_setting f_hostname (file_lines contents) None,
               sys_gethostname w HOST_NAME_MAX with
         | None, inl _ => ENOMEM
         | _, _ => 0
         end in
  exists s',
    ph_read_config path w s = Ret rc s' /\
    (rc <> 0 ->
     conf_out s' = conf_out s /\ heap s' !! fresh (dom (heap s)) = None).
Proof.
  intros Hok Hopen Hmax.
  pose proof (ph_read_config_run path w s) as Hrun. cbv zeta in Hrun.
  rewrite Hopen, Hok in Hrun.
  destruct (read_lines_all_succeed (fresh (dom (heap s))) w (file_lines contents)
              (fun _ => None) (after_calloc s) Hok (record_inv_calloc _ _))
    as (s2 & E).
  rewrite E in Hrun. cbv zeta.
  destruct (existsb malformed (file_lines contents)).
  { destruct Hrun as (_ & s' & Hret & Ho & Hl). by exists s'. }
  destruct Hrun as (_ & c2 & Hc2 & Hi & Hdef).
  pose proof (default_config_granted _ c2 w s2 Hok Hc2 Hmax) as Hgr.
  destruct Hi as (c2' & Hc2' & _ & Hf & _).
  assert (c2' = c2) as -> by congruence.
  pose proof (Hf f_hostname) as Hhost. cbn [get_field] in Hhost.
  destruct (Hdef Hmax) as [(s3 & Ed & Hret & Ho & Hl)|(s3 & c' & Ed & Hret & Hrec)].
  - (* the defaulting pass failed *)
    destruct (file_setting f_hostname (file_lines contents) None) as [t|].
    + simpl in Hhost. apply string_at_live in Hhost as (l & bs & Hp & _).
      rewrite Hp in Hgr. destruct Hgr as (s' & Es). congruence.
    + simpl in Hhost. rewrite Hhost in Hgr.
      destruct (sys_gethostname w HOST_NAME_MAX) as [e|name].
      * by exists s3.
      * destruct Hgr as (s' & ? & ? & Es & _). congruence.
  - (* the defaulting pass succeeded *)
    assert (Hnofail : forall s1,
      default_config (fresh (dom (heap s))) w s2
      <> (ph_cleanup_config (Some (fresh (dom (heap s))));;; ret None) w s1).
    { intros s1 Es. rewrite Ed in Es. symmetry in Es.
      by apply fail_never_succeeds in Es. }
    destruct (file_setting f_hostname (file_lines contents) None) as [t|].
    + eexists. split; [exact Hret | done].
    + simpl in Hhost. rewrite Hhost in Hgr.
      destruct (sys_gethostname w HOST_NAME_MAX) as [e|name].
      * destruct Hgr as (s1 & Es). by apply Hnofail in Es.
      * eexists. split; [exact Hret | done].
Qed.

(** X11.  Once the file is open, a load that returns has returned 0,
    [EINVAL] or [ENOMEM]: the [EAGAIN] by which [read_config_line] marks a
    comment never reaches the caller.  When the file cannot be opened the
    value returned is the error of [fopen], whatever it is. *)
Theorem load_return_codes path w s rc s' :
  (0 < HOST_NAME_MAX)%nat ->
  ph_read_config path w s = Ret rc s' ->
  match sys_fopen w path with
  | inl errno => rc = Zpos errno /\ s' = s
  | inr _ => rc = 0 \/ rc = EINVAL \/ rc = ENOMEM
  end.
Proof.
  intros Hmax Hret.
  pose proof (ph_read_config_run path w s) as Hrun. cbv zeta in Hrun.
  destruct (sys_fopen w path) as [e|contents]; [split; congruence|].
  destruct (malloc_ok w (nallocs s)); [|right; right; congruence].
  destruct (read_lines _ _ w (after_calloc s)) as [[e|] s2|].
  - destruct Hrun as (He & s'' & E & _).
    assert (rc = e) as -> by congruence. by right.
  - destruct Hrun as (_ & c2 & _ & _ & Hdef).
    destruct (Hdef Hmax) as [(s3 & _ & E & _)|(s3 & c' & _ & E & _)].
    + right; right; congruence.
    + left; congruence.
  - congruence.
Qed.

(** X12.  After a load that returned 0 every string field the file sets
    reads as the value the file gives it, the trimmed value of the last
    line whose trimmed key names the field, as the specification defines
    the lines of the file: [bind_dn], [bind_pw] and [hostname] as well as
    [uri] and [search_base]; [bind_dn] and [bind_pw] have no default and
    stay [NULL] when no line sets them. *)
Theorem loaded_fields_come_from_file path w s s' :
  (0 < HOST_NAME_MAX)%nat ->
  ph_read_config path w s = Ret 0 s' ->
  exists contents conf c',
    sys_fopen w path = inr contents /\
    conf_out s' = Some conf /\
    heap s' !! conf = Some (Config c') /\
    (forall f t,
       spec_file_value f (file_lines contents) = Some t ->
       string_at (heap s') (get_field f c') = Some t) /\
    (spec_file_value f_bind_dn (file_lines contents) = None -> bind_dn c' = None) /\
    (spec_file_value f_bind_pw (file_lines contents) = None -> bind_pw c' = None).
Proof.
  intros Hmax Hret.
  destruct (ph_read_config_success path w s s' Hmax Hret)
    as (contents & cl & s2 & c2 & s3 & c' & Hopen & _ & Hc2 & Hi & _ & Hrec & ->).
  destruct Hrec as (Hc' & _ & Hdn & Hpw & Hu & Hs & Hh & Hfr).
  destruct Hi as (c2' & Hc2' & _ & Hf & _).
  assert (c2' = c2) as -> by congruence.
  exists contents, cl, c'. state_simpl. split_and!; try done.
  - intros f t Ht. rewrite <- file_setting_spec in Ht.
    pose proof (Hf f) as Hfield. rewrite Ht in Hfield.
    simpl in Hfield.
    assert (get_field f c' = get_field f c2) as ->.
    { pose proof Hfield as (l & bs & Hp & _)%string_at_live.
      destruct f; cbn [get_field] in *; try done.
      - unfold defaulted in Hu. rewrite Hp in Hu. congruence.
      - unfold defaulted in Hs. rewrite Hp in Hs. congruence.
      - unfold hostname_filled in Hh. rewrite Hp in Hh. congruence. }
    eapply string_at_frame; [|exact Hfield].
    intros l b Hl. apply Hfr; [congruence | done].
  - intros Hnone. rewrite <- file_setting_spec in Hnone.
    pose proof (Hf f_bind_dn) as Hfield. rewrite Hnone in Hfield.
    simpl in Hfield. congruence.
  - intros Hnone. rewrite <- file_setting_spec in Hnone.
    pose proof (Hf f_bind_pw) as Hfield. rewrite Hnone in Hfield.
    simpl in Hfield. congruence.
Qed.

(** ** Comment lines *)

Lemma skip_whitespace_split line :
  exists ws, blank ws /\ line = ws ++ skip_whitespace line.
Proof.
  induction line as [|c line (ws & Hws & Hl)]; simpl.
  - exists []. split; [constructor | done].
  - destruct (isspace c) eqn:Hc.
    + exists (c :: ws). split; [by constructor|]. simpl. by rewrite <- Hl.
    + exists []. split; [constructor | done].
Qed.

Lemma is_comment_inv line :
  is_comment line = true ->
  exists ws rest, blank ws /\ line = ws ++ "#"%char :: rest.
Proof.
  unfold is_comment. intros Hc.
  destruct (skip_whitespace_split line) as (ws & Hws & Hl).
  destruct (skip_whitespace line) as [|c rest]; [done|].
  unfold char_at in Hc. simpl in Hc. apply Ascii.eqb_eq in Hc as ->. eauto.
Qed.

(** X13.  On a live record [read_config_line] answers [EAGAIN] for the
    lines whose first character after the leading whitespace is '#', and for
    no other line. *)
Theorem eagain_marks_comments_only line conf c w s :
  heap s !! conf = Some (Config c) ->
  (exists s', read_config_line line conf w s = Ret EAGAIN s') <->
  (exists ws rest, blank ws /\ line = ws ++ "#"%char :: rest).
Proof.
  intros Hc. split.
  - intros (s' & Hret). apply is_comment_inv.
    pose proof (read_config_line_run line conf c w s Hc) as Hrun. cbv zeta in Hrun.
    destruct (is_comment line); [done|].
    destruct (strchr (skip_whitespace line) SEPARATOR);
      [|rewrite Hrun in Hret; discriminate Hret].
    destruct (malloc_ok w (nallocs s)); [|rewrite Hrun in Hret; discriminate Hret].
    destruct (malloc_ok w (S (nallocs s))), (malloc_ok w (S (S (nallocs s))));
      [destruct Hrun as (? & _ & Hrun) | destruct Hrun as (? & _ & Hrun)
      | destruct Hrun as (? & _ & Hrun) | ];
      rewrite Hrun in Hret; discriminate Hret.
  - intros (ws & rest & Hws & ->). exists s.
    apply read_config_line_comment. by apply is_comment_form.
Qed.

(** ** The loader and the memory of its caller *)

Lemma owned_extend h0 (h h' : gmap loc block) conf c c' :
  owned h0 h conf ->
  h !! conf = Some (Config c) ->
  h' !! conf = Some (Config c') ->
  frame conf h h' ->
  (exists t σ, record_inv h' conf t σ) ->
  (forall f l, get_field f c' = Some l -> get_field f c = Some l \/ h !! l = None) ->
  owned h0 h' conf.
Proof.
  intros (Hsub & Hconf & t & σ & c0 & _ & Hc0 & Hptr) Hc Hc' Hfr (t' & σ' & Hinv) Hnew.
  assert (c0 = c) as -> by congruence.
  rewrite map_subseteq_spec in Hsub.
  split_and!; [|done|].
  - apply map_subseteq_spec. intros l b Hl. apply Hfr; [congruence | by apply Hsub].
  - exists t', σ', c'. split_and!; try done.
    intros f l Hf. destruct (Hnew f l Hf) as [Hold|Hfresh]; [by eapply Hptr|].
    destruct (h0 !! l) as [b|] eqn:E; [|done].
    apply Hsub in E. congruence.
Qed.

Lemma owned_record h0 h conf :
  owned h0 h conf ->
  exists t σ c, record_inv h conf t σ /\ h !! conf = Some (Config c).
Proof. intros (_ & _ & t & σ & c & Hi & Hc & _). eauto. Qed.

Lemma owned_subseteq h0 h conf : owned h0 h conf -> h0 ⊆ h.
Proof. by intros (? & _). Qed.

(** One line keeps the caller's blocks. *)
Lemma read_config_line_owned h0 line conf w s :
  owned h0 (heap s) conf ->
  match read_config_line line conf w s with
  | Ret _ s' => owned h0 (heap s') conf
  | Fault => True
  end.
Proof.
  intros Hown. destruct (owned_record _ _ _ Hown) as (t & σ & c & Hinv & Hc).
  pose proof (read_config_line_run line conf c w s Hc) as Hrun. cbv zeta in Hrun.
  destruct (is_comment line); [by rewrite Hrun|].
  destruct (strchr (skip_whitespace line) SEPARATOR) as [sep|]; [|by rewrite Hrun].
  destruct (malloc_ok w (nallocs s)); [|by rewrite Hrun].
  assert (Hleak : forall l b, heap s !! l = None ->
            owned h0 (<[l := b]> (heap s)) conf).
  { intros l b Hl. apply (owned_extend h0 (heap s) _ conf c c); try done.
    - rewrite lookup_insert_ne; [done | congruence].
    - by apply frame_insert_fresh.
    - eexists _, _. by apply record_inv_alloc.
    - auto. }
  destruct (malloc_ok w (S (nallocs s))), (malloc_ok w (S (S (nallocs s)))).
  - destruct Hrun as (vp & Hvp & ->). state_simpl. unfold heap_after_line.
    destruct (key_field _) as [f|]; [|done].
    apply (owned_extend h0 (heap s) _ conf c (set_field f (Some vp) c)); try done.
    + apply lookup_insert_eq.
    + eapply frame_trans; [by apply frame_insert_fresh | apply frame_insert_conf].
    + eexists _, _. by apply record_inv_set.
    + intros g l. destruct (decide (f = g)) as [<-|Hne].
      * rewrite get_set_field_eq. intros [= <-]. by right.
      * rewrite get_set_field_ne by done. by left.
  - destruct Hrun as (kp & Hkp & ->). by apply Hleak.
  - destruct Hrun as (vp & Hvp & ->). by apply Hleak.
  - by rewrite Hrun.
Qed.

Lemma read_lines_owned h0 conf w lines : forall s,
  owned h0 (heap s) conf ->
  match read_lines lines conf w s with
  | Ret _ s' => owned h0 (heap s') conf
  | Fault => True
  end.
Proof.
  induction lines as [|line lines IH]; intros s Hown; simpl; [done|].
  pose proof (read_config_line_owned h0 line conf w s Hown) as Hline.
  unfold bind at 1.
  destruct (read_config_line line conf w s) as [r s1|]; [|done].
  destruct (r =? EAGAIN); [by apply IH|].
  destruct (negb (r =? 0)); [done | by apply IH].
Qed.

(** The cleanup of an owned record keeps the caller's blocks. *)
Lemma ph_cleanup_config_owned h0 conf w s :
  owned h0 (heap s) conf ->
  exists s', ph_cleanup_config (Some conf) w s = Ret tt s' /\ h0 ⊆ heap s'.
Proof.
  intros (Hsub & Hconf & t & σ & c & Hinv & Hc & Hptr).
  destruct (ph_cleanup_config_exact conf c t σ w s Hinv Hc) as (s' & E & _ & _ & Hl).
  exists s'. split; [done|].
  rewrite map_subseteq_spec in *. intros l b Hb. rewrite Hl.
  rewrite bool_decide_eq_false_2; [by apply Hsub|].
  intros [->|[Hx|[Hx|Hx]]]; [congruence| | |].
  - apply (Hptr f_uri) in Hx. congruence.
  - apply (Hptr f_search_base) in Hx. congruence.
  - apply (Hptr f_hostname) in Hx. congruence.
Qed.

Lemma fail_owned h0 conf w s :
  owned h0 (heap s) conf ->
  match (ph_cleanup_config (Some conf);;; ret (@None loc)) w s with
  | Ret _ s' => h0 ⊆ heap s'
  | Fault => True
  end.
Proof.
  intros Hown. destruct (ph_cleanup_config_owned h0 conf w s Hown) as (s' & E & Hsub).
  unfold bind. by rewrite E.
Qed.

Lemma default_string_owned h0 f D conf c w s :
  owned h0 (heap s) conf ->
  heap s !! conf = Some (Config c) ->
  exists s' c',
    (if get_field f c is None
     then let* p := strdup D in modify_config conf (set_field f p)
     else ret tt) w s = Ret tt s' /\
    heap s' !! conf = Some (Config c') /\
    owned h0 (heap s') conf /\
    get_field f_hostname c' = (if decide (f = f_hostname) then get_field f c'
                               else get_field f_hostname c).
Proof.
  intros Hown Hc.
  destruct (default_string_run f D conf c w s Hc)
    as (s' & c' & E & _ & Hc' & Hoth & _ & Hd & Hfr & Hinv).
  exists s', c'. split_and!; try done.
  - destruct (owned_record _ _ _ Hown) as (t & σ & c0 & Hi & Hc0).
    apply (owned_extend h0 (heap s) _ conf c c'); try done.
    + destruct (Hinv _ _ Hi) as [σ' Hi']. eauto.
    + intros g l Hg. destruct (decide (g = f)) as [->|Hne].
      * destruct Hd as [[Hd _]|Hd]; [congruence|].
        unfold defaulted in Hd. destruct (get_field f c) as [q|].
        -- left. congruence.
        -- destruct Hd as (l' & Hl' & Hfresh & _). right. congruence.
      * left. by rewrite <- Hoth.
  - destruct (decide (f = f_hostname)) as [->|Hne]; [done|].
    apply Hoth. congruence.
Qed.

Lemma default_config_owned h0 conf w s :
  owned h0 (heap s) conf ->
  (0 < HOST_NAME_MAX)%nat ->
  match default_config conf w s with
  | Ret _ s' => h0 ⊆ heap s'
  | Fault => True
  end.
Proof.
  intros Hown Hmax. destruct (owned_record _ _ _ Hown) as (t0 & σ0 & c & _ & Hc).
  remember (default_config conf w s) as r eqn:Hr.
  unfold default_config in Hr. cbv zeta in Hr.
  unfold bind at 1 in Hr. rewrite (load_config_live _ _ _ _ Hc) in Hr.
  destruct (default_string_owned h0 f_uri PAM_HBAC_DEFAULT_URI conf c w s Hown Hc)
    as (s1 & c1 & E1 & Hc1 & Hown1 & Hh1).
  assert (E1' : (if uri c is None
                 then let* p := strdup PAM_HBAC_DEFAULT_URI in
                      modify_config conf (set_uri p)
                 else ret tt) w s = Ret tt s1) by exact E1.
  unfold bind at 1 in Hr. rewrite E1' in Hr.
  unfold bind at 1 in Hr. rewrite (load_config_live _ _ _ _ Hc1) in Hr.
  destruct (default_string_owned h0 f_search_base PAM_HBAC_DEFAULT_SEARCH_BASE
              conf c1 w s1 Hown1 Hc1)
    as (s2 & c2 & E2 & Hc2 & Hown2 & Hh2).
  assert (E2' : (if search_base c1 is None
                 then let* p := strdup PAM_HBAC_DEFAULT_SEARCH_BASE in
                      modify_config conf (set_search_base p)
                 else ret tt) w s1 = Ret tt s2) by exact E2.
  unfold bind at 1 in Hr. rewrite E2' in Hr.
  unfold bind at 1 in Hr. rewrite (load_config_live _ _ _ _ Hc2) in Hr.
  clear E1 E1' E2 E2' Hh1 Hh2 Hown Hown1 Hc Hc1 c c1 s1.
  pose proof Hown2 as (Hsub & Hconf & _).
  assert (Hrest : forall s3 c3,
    heap s3 !! conf = Some (Config c3) -> h0 ⊆ heap s3 ->
    match (let* c := load_config conf in
           (if timeout c =? 0
            then modify_config conf (set_timeout PAM_HBAC_DEFAULT_TIMEOUT)
            else ret tt);;;
           ret (Some conf)) w s3 with
    | Ret _ s' => h0 ⊆ heap s'
    | Fault => True
    end).
  { intros s3 c3 Hc3 Hsub3.
    destruct (default_timeout_run conf c3 w s3 Hc3) as (s' & c' & E & _ & Hheap & _).
    rewrite E, Hheap. by apply insert_subseteq_r. }
  destruct (bool_decide (search_base c2 = None) || bool_decide (uri c2 = None)).
  { rewrite Hr. by apply fail_owned. }
  destruct (hostname c2) as [q|] eqn:Ehost.
  { rewrite Hr. by apply (Hrest s2 c2). }
  unfold bind at 1, malloc in Hr.
  destruct (malloc_ok w (nallocs s2)) eqn:Hok.
  2:{ rewrite alloc_fails in Hr by done. unfold bind at 1 in Hr.
      rewrite (modify_config_live conf c2) in Hr by done.
      unfold set_heap in Hr. cbn [heap nallocs conf_out] in Hr.
      replace (set_hostname None c2) with c2 in Hr
        by (symmetry; by apply (set_field_same f_hostname)).
      rewrite insert_id in Hr by done.
      rewrite Hr. by apply fail_owned. }
  rewrite alloc_succeeds in Hr by done.
  pose proof (fresh_lookup (heap s2)) as Hhp.
  set (hp := fresh (dom (heap s2))) in *. clearbody hp.
  set (junk := map (malloc_junk w) (seq 0 HOST_NAME_MAX)) in *.
  assert (Hjl : length junk = HOST_NAME_MAX)
    by (unfold junk; by rewrite length_map, length_seq).
  assert (conf <> hp) by congruence.
  assert (Hhp0 : h0 !! hp = None).
  { destruct (h0 !! hp) as [b|] eqn:E; [|done].
    rewrite map_subseteq_spec in Hsub. apply Hsub in E. congruence. }
  unfold bind at 1 in Hr.
  rewrite (modify_config_live conf c2) in Hr
    by (state_simpl; by rewrite lookup_insert_ne).
  unfold set_heap in Hr. cbn [heap nallocs conf_out] in Hr.
  unfold bind at 1, gethostname at 1 in Hr.
  destruct (sys_gethostname w HOST_NAME_MAX) as [e|name].
  { unfold ret at 1 in Hr. change (-1 =? -1) with true in Hr. cbn iota in Hr.
    rewrite Hr. apply fail_owned. state_simpl.
    destruct (owned_record _ _ _ Hown2) as (t & σ & c2' & Hi & Hc2').
    apply (owned_extend h0 (heap s2) _ conf c2 (set_hostname (Some hp) c2)); try done.
    - apply lookup_insert_eq.
    - eapply frame_trans; [by apply frame_insert_fresh | apply frame_insert_conf].
    - eexists _, _. by apply (record_inv_set _ _ _ σ c2 f_hostname).
    - intros g l. destruct (decide (f_hostname = g)) as [<-|Hne].
      + simpl. intros [= <-]. by right.
      + rewrite (get_set_field_ne f_hostname) by done. by left. }
  unfold bind at 1 in Hr.
  rewrite (load_chars_live hp junk) in Hr
    by (state_simpl; rewrite lookup_insert_ne by done; apply lookup_insert_eq).
  replace (length junk <? HOST_NAME_MAX)%nat with false in Hr
    by (symmetry; apply Nat.ltb_ge; lia).
  unfold bind at 1 in Hr.
  rewrite (store_chars_live hp junk) in Hr
    by (state_simpl; rewrite lookup_insert_ne by done; apply lookup_insert_eq).
  unfold set_heap, ret at 1 in Hr. cbn [heap nallocs conf_out] in Hr.
  change (0 =? -1) with false in Hr. cbn iota in Hr.
  set (buf := take HOST_NAME_MAX name ++ drop (length (take HOST_NAME_MAX name)) junk) in *.
  assert (Hbl : length buf = HOST_NAME_MAX).
  { unfold buf. rewrite length_app, length_drop, !length_take. lia. }
  unfold bind at 1 in Hr.
  replace (Z.of_nat HOST_NAME_MAX - 1) with (Z.of_nat (HOST_NAME_MAX - 1)) in Hr by lia.
  rewrite (poke_live hp buf) in Hr
    by (state_simpl; first [apply lookup_insert_eq | lia]).
  unfold set_heap in Hr. cbn [heap nallocs conf_out] in Hr.
  rewrite Hr. eapply Hrest; state_simpl.
  - repeat (rewrite lookup_insert_ne by done). apply lookup_insert_eq.
  - repeat apply insert_subseteq_r; done.
Qed.

(** X15.  Every way a load can end.  When the file cannot be opened, the
    record cannot be allocated, the loop over the lines stops at a line
    with an error or the defaulting pass fails, the loader returns a
    nonzero code, leaves the caller's variable alone and has released the
    record.  The only other ways out are a success, with the live record
    in the caller's variable, and a fault inside the loop over the lines,
    which takes an allocation that fails: when none does, the loader
    returns. *)
Theorem failed_load_leaves_no_record path w s :
  (0 < HOST_NAME_MAX)%nat ->
  let cl := fresh (dom (heap s)) in
  match sys_fopen w path with
  | inl errno => load_fails_cleanly path w s (Zpos errno)
  | inr contents =>
      if malloc_ok w (nallocs s) then
        match read_lines (file_lines contents) cl w (after_calloc s) with
        | Fault =>
            ph_read_config path w s = Fault /\ ~ all_allocations_succeed w
        | Ret (Some e) _ => load_fails_cleanly path w s e
        | Ret None s2 =>
            match default_config cl w s2 with
            | Fault => False
            | Ret None _ => load_fails_cleanly path w s ENOMEM
            | Ret (Some _) s3 =>
                ph_read_config path w s
                = Ret 0 (mk_state (heap s3) (nallocs s3) (Some cl)) /\
                is_Some (heap s3 !! cl)
            end
        end
      else load_fails_cleanly path w s ENOMEM
  end.
Proof.
  intros Hmax cl.
  pose proof (ph_read_config_run path w s) as Hrun. cbv zeta in Hrun. fold cl in Hrun.
  destruct (sys_fopen w path) as [e|contents].
  { split; [done|]. exists s. split_and!; try done. apply fresh_lookup. }
  destruct (malloc_ok w (nallocs s)).
  2:{ split; [done|]. eexists. split_and!; [done | done |]. apply fresh_lookup. }
  destruct (read_lines _ cl w (after_calloc s)) as [[e|] s2|] eqn:Hloop.
  - destruct Hrun as (He & Hrun). split; [|done]. by destruct He as [-> | ->].
  - destruct Hrun as (_ & c2 & Hc2 & Hi & Hdef).
    destruct (Hdef Hmax) as [(s3 & -> & E & Ho & Hl)|(s3 & c' & -> & E & Hrec)].
    + split; [done|]. by exists s3.
    + split; [done|]. destruct Hrec as (Hc' & _). by eexists.
  - split; [done|]. intros Hok.
    destruct (read_lines_all_succeed cl w (file_lines contents) (fun _ => None)
                (after_calloc s) Hok (record_inv_calloc (heap s) cl)) as (s2 & E).
    congruence.
Qed.

(** X14.  A load that returns has left every block that was allocated
    before it as it was: whatever the outcome, the loader frees and
    overwrites only memory it allocated itself. *)
Theorem load_keeps_the_callers_blocks path w s rc s' :
  (0 < HOST_NAME_MAX)%nat ->
  ph_read_config path w s = Ret rc s' ->
  forall l b, heap s !! l = Some b -> heap s' !! l = Some b.
Proof.
  intros Hmax Hret. apply map_subseteq_spec.
  unfold ph_read_config in Hret.
  destruct (sys_fopen w path) as [e|contents].
  { unfold ret in Hret. by injection Hret as _ <-. }
  unfold bind at 1, calloc_config in Hret.
  destruct (malloc_ok w (nallocs s)) eqn:Hok.
  2:{ rewrite alloc_fails in Hret by done. by injection Hret as _ <-. }
  rewrite alloc_succeeds in Hret by done.
  pose proof (fresh_lookup (heap s)) as Hcl.
  set (cl := fresh (dom (heap s))) in *. clearbody cl.
  match type of Hret with _ _ ?s1 = _ =>
    assert (Hown : owned (heap s) (heap s1) cl)
  end.
  { state_simpl. split_and!; [by apply insert_subseteq | done |].
    exists 0, (fun _ => None), zero_config. split_and!.
    - apply record_inv_calloc.
    - apply lookup_insert_eq.
    - by intros []. }
  unfold bind at 1 in Hret.
  match type of Hret with context [read_lines ?ls cl w ?s1] =>
    pose proof (read_lines_owned (heap s) cl w ls s1 Hown) as Hloop;
    destruct (read_lines ls cl w s1) as [[e|] s2|]; [| |done]
  end.
  - destruct (ph_cleanup_config_owned _ cl w s2 Hloop) as (s3 & E & Hsub).
    unfold bind in Hret. destruct (negb (e =? 0)).
    + rewrite E in Hret. unfold ret in Hret. by injection Hret as _ <-.
    + unfold ret in Hret. injection Hret as _ <-. by eapply owned_subseteq.
  - pose proof (default_config_owned _ cl w s2 Hloop Hmax) as Hdef.
    unfold bind at 1 in Hret.
    destruct (default_config cl w s2) as [[q|] s3|]; [| |done].
    + unfold bind, write_conf_out, ret in Hret. simpl in Hret.
      by injection Hret as _ <-.
    + unfold bind, ret in Hret. simpl in Hret. by injection Hret as _ <-.
Qed.

End Further.

(** ** Concrete runs of the further properties *)

Lemma refused_line_copy_crashes_load_witness :
  @ph_read_config example_macros []
    (example_world_record_only (str "# settings" ++ nl ++ str "ldap_uri=x" ++ nl))
    empty_state = Fault.
Proof.
  apply (@refused_line_copy_crashes_load example_macros []
           (example_world_record_only (str "# settings" ++ nl ++ str "ldap_uri=x" ++ nl))
           empty_state (str "# settings" ++ nl ++ str "ldap_uri=x" ++ nl)
           [str "# settings" ++ nl] (str "ldap_uri=x" ++ nl) [] 8%nat);
    try reflexivity.
  by repeat constructor.
Defined.

Lemma loaded_uri_and_search_base_witness :
  (exists conf c',
     conf_out example_loaded_state = Some conf /\
     heap example_loaded_state !! conf = Some (Config c') /\
     string_at (heap example_loaded_state) (uri c')
     = Some (str "ldap://dir.example.com") /\
     string_at (heap example_loaded_state) (search_base c')
     = Some (str "dc=example,dc=com")) /\
  (exists conf c',
     conf_out example_bind_loaded_state = Some conf /\
     heap example_bind_loaded_state !! conf = Some (Config c') /\
     string_at (heap example_bind_loaded_state) (uri c')
     = Some (str "ldap://localhost") /\
     string_at (heap example_bind_loaded_state) (search_base c')
     = Some (str "dc=localdomain")).
Proof.
  split.
  - destruct (@loaded_uri_and_search_base example_macros []
                (example_world example_file) empty_state example_loaded_state)
      as (contents & conf & c' & Hopen & Hout & Hc & Hu & Hs).
    + simpl. lia.
    + by vm_compute.
    + injection Hopen as <-. exists conf, c'. split_and!; [done | done | |].
      * rewrite Hu. by vm_compute.
      * rewrite Hs. by vm_compute.
  - destruct (@loaded_uri_and_search_base example_macros []
                (example_world example_bind_file) empty_state
                example_bind_loaded_state)
      as (contents & conf & c' & Hopen & Hout & Hc & Hu & Hs).
    + simpl. lia.
    + by vm_compute.
    + injection Hopen as <-. exists conf, c'. split_and!; [done | done | |].
      * rewrite Hu. by vm_compute.
      * rewrite Hs. by vm_compute.
Defined.

Lemma line_copy_failure_faults_witness :
  @read_config_line example_macros (str "ldap_uri=x" ++ nl) 0%nat
    (example_world_with (fun _ => false) []) record_state = Fault /\
  @read_lines example_macros [str "ldap_uri=x" ++ nl] 0%nat
    (example_world_with (fun _ => false) []) record_state = Fault.
Proof.
  apply (@line_copy_failure_faults example_macros (str "ldap_uri=x" ++ nl) []
           0%nat 8%nat (example_world_with (fun _ => false) []) record_state);
    reflexivity.
Defined.

Lemma get_key_value_accounts_witness :
  (exists kp vp,
     kp <> vp /\ heap record_state !! kp = None /\ heap record_state !! vp = None /\
     get_key_value (str "host_name = client" ++ nl) None None
       (example_world []) record_state
     = Ret (0, (Some kp, Some vp))
         (mk_state (<[vp := Chars (str "client" ++ [NUL])]>
                      (<[kp := Chars (str "host_name" ++ [NUL])]> (heap record_state)))
                   3 None)) /\
  get_key_value (str "host_name = client" ++ nl) None None
    example_world_first_only record_state
  = Ret (ENOMEM, (None, None)) (mk_state (heap record_state) 3 None).
Proof.
  split.
  - apply (proj1 (get_key_value_accounts (str "host_name = client" ++ nl) 10%nat
                    None None (example_world []) record_state eq_refl eq_refl));
      reflexivity.
  - apply (proj2 (get_key_value_accounts (str "host_name = client" ++ nl) 10%nat
                    None None example_world_first_only record_state eq_refl eq_refl));
      reflexivity.
Defined.

Lemma repeated_key_keeps_old_string_witness :
  exists vp s',
    @read_config_line example_macros (str "ldap_uri = ldap://new" ++ nl) 0%nat
      (example_world []) example_set_state = Ret 0 s' /\
    heap s' !! 0%nat = Some (Config (set_field f_uri (Some vp) example_set_record)) /\
    vp <> 1%nat /\
    heap s' !! vp = Some (Chars (str "ldap://new" ++ [NUL])) /\
    heap s' !! 1%nat = Some (Chars (str "ldap://old" ++ [NUL])).
Proof.
  apply (@repeated_key_keeps_old_string example_macros
           (str "ldap_uri = ldap://new" ++ nl) 9%nat f_uri 0%nat example_set_record
           1%nat (str "ldap://old" ++ [NUL]) (example_world []) example_set_state);
    reflexivity.
Defined.

Lemma example_set_state_inv :
  record_inv (heap example_set_state) 0%nat 0
    (fun f => string_at (heap example_set_state) (get_field f example_set_record)).
Proof.
  exists example_set_record. split_and!; [done | done | by intros [] |].
  by intros [] [].
Qed.

Lemma cleanup_releases_four_blocks_witness :
  exists s',
    ph_cleanup_config (Some 0%nat) (example_world []) example_set_state = Ret tt s' /\
    nallocs s' = 0%nat /\ conf_out s' = None /\
    (forall l,
       heap s' !! l
       = if bool_decide (l = 0%nat \/ Some 1%nat = Some l \/ Some 2%nat = Some l \/
                         Some 4%nat = Some l)
         then None else heap example_set_state !! l) /\
    (forall p, Some 3%nat = Some p \/ @None loc = Some p ->
               heap s' !! p = heap example_set_state !! p /\
               is_Some (heap example_set_state !! p)) /\
    (forall w', ph_cleanup_config (Some 0%nat) w' s' = Fault).
Proof.
  apply (cleanup_releases_four_blocks 0%nat example_set_record 0 _
           (example_world []) example_set_state example_set_state_inv).
  reflexivity.
Defined.

Lemma default_config_on_set_record_witness :
  @default_config example_macros 0%nat (example_world_with (fun _ => false) [])
    example_set_state
  = Ret (Some 0%nat)
      (set_heap (<[0%nat := Config (set_timeout 5 example_set_record)]>
                   (heap example_set_state)) example_set_state).
Proof.
  apply (@default_config_on_set_record example_macros 0%nat example_set_record
           1%nat 2%nat 4%nat (example_world_with (fun _ => false) [])
           example_set_state); reflexivity.
Defined.

Lemma defaulted_hostname_is_lookup_cut_witness :
  exists s' c',
    @default_config example_macros 0%nat (example_world []) record_state
    = Ret (Some 0%nat) s' /\
    heap s' !! 0%nat = Some (Config c') /\
    string_at (heap s') (hostname c') = Some (str "a-long-").
Proof.
  apply (@defaulted_hostname_is_lookup_cut example_macros 0%nat zero_config
           (example_world []) record_state (str "a-long-host-name")).
  - by intros n.
  - reflexivity.
  - reflexivity.
  - simpl. lia.
  - reflexivity.
  - left. simpl. lia.
Defined.

Lemma load_outcome_when_memory_suffices_witness :
  exists s',
    @ph_read_config example_macros [] (example_world (nl ++ example_file)) empty_state
    = Ret EINVAL s' /\
    (EINVAL <> 0 ->
     conf_out s' = conf_out empty_state /\
     heap s' !! fresh (dom (heap empty_state)) = None).
Proof.
  apply (@load_outcome_when_memory_suffices example_macros []
           (example_world (nl ++ example_file)) empty_state (nl ++ example_file)).
  - by intros n.
  - reflexivity.
  - simpl. lia.
Defined.

Lemma load_return_codes_witness :
  (EINVAL = 0 \/ EINVAL = EINVAL \/ EINVAL = ENOMEM) /\
  (2 = Zpos 2 /\ empty_state = empty_state).
Proof.
  split.
  - apply (@load_return_codes example_macros [] (example_world (nl ++ example_file))
             empty_state EINVAL (mk_state ∅ 1 None)).
    + simpl. lia.
    + by vm_compute.
  - apply (@load_return_codes example_macros [] world_without_file
             empty_state 2 empty_state).
    + simpl. lia.
    + by vm_compute.
Defined.

Lemma loaded_fields_come_from_file_witness :
  exists conf c',
    conf_out example_bind_loaded_state = Some conf /\
    heap example_bind_loaded_state !! conf = Some (Config c') /\
    string_at (heap example_bind_loaded_state) (bind_dn c')
    = Some (str "cn=admin,dc=example") /\
    string_at (heap example_bind_loaded_state) (hostname c')
    = Some (str "client.example.com") /\
    bind_pw c' = None.
Proof.
  destruct (@loaded_fields_come_from_file example_macros []
              (example_world example_bind_file) empty_state example_bind_loaded_state)
    as (contents & conf & c' & Hopen & Hout & Hc & Hset & _ & Hpw).
  - simpl. lia.
  - by vm_compute.
  - injection Hopen as <-. exists conf, c'. split_and!; [done | done | | |].
    + apply (Hset f_bind_dn). by vm_compute.
    + apply (Hset f_hostname). by vm_compute.
    + apply Hpw. by vm_compute.
Defined.

Lemma eagain_marks_comments_only_witness :
  (exists s', @read_config_line example_macros (str "  # note" ++ nl) 0%nat
                (example_world []) record_state = Ret EAGAIN s') <->
  (exists ws rest, blank ws /\ str "  # note" ++ nl = ws ++ "#"%char :: rest).
Proof.
  apply (@eagain_marks_comments_only example_macros (str "  # note" ++ nl) 0%nat
           zero_config (example_world []) record_state).
  reflexivity.
Defined.

Lemma load_keeps_the_callers_blocks_witness :
  heap example_reloaded_state !! 0%nat = Some (Config zero_config).
Proof.
  apply (@load_keeps_the_callers_blocks example_macros []
           (example_world example_file) record_state 0 example_reloaded_state).
  - simpl. lia.
  - by vm_compute.
  - reflexivity.
Defined.

Lemma failed_load_leaves_no_record_witness :
  @load_fails_cleanly example_macros [] world_without_file empty_state 2 /\
  @load_fails_cleanly example_macros []
    (example_world_with (fun _ => false) example_file) empty_state ENOMEM /\
  @load_fails_cleanly example_macros []
    (example_world (str "ldap_uri ldap://x" ++ nl)) empty_state EINVAL.
Proof.
  assert (Hmax : (0 < @HOST_NAME_MAX example_macros)%nat) by (simpl; lia).
  split_and!.
  - exact (@failed_load_leaves_no_record example_macros [] world_without_file
             empty_state Hmax).
  - exact (@failed_load_leaves_no_record example_macros []
             (example_world_with (fun _ => false) example_file) empty_state Hmax).
  - pose proof (@failed_load_leaves_no_record example_macros []
             (example_world (str "ldap_uri ldap://x" ++ nl)) empty_state Hmax) as Hrun.
    exact Hrun.
Defined.
